(** * golang-wpasupplicant: the unixgram control-interface client

    A shallow embedding of [unixgram.go]: the message router of
    [readLoop], the event decoder of [readUnsolicited], [cmd] and
    [runCommand], the response parsers and [decodeByteLiteralString],
    followed by the properties established about them.

    Conventions.  A Go [string] and a Go [[]byte] are both sequences of
    8-bit bytes and are both represented by [string]; the conversions
    between the two are the identity.  A Go [int] is 64 bits wide; every
    integer the program computes is a length, an index or a parsed value
    that is range-checked, so [Z] is used without wrap-around.  An access
    out of range is a run-time panic, kept as a result of its own. *)

From Stdlib Require Import ZArith Ascii String List Lia Permutation.
From stdpp Require Import base option list strings gmap.

Local Open Scope Z_scope.

(** ** Results of code that may panic *)

Inductive panic : Type :=
| IndexOutOfRange (i len : Z)
| SliceOutOfRange (lo hi len : Z).

(** [Diverges] is what a fuelled loop answers when its fuel is used up;
    [decodeByteLiteralString_total] shows it is never the answer. *)
Inductive outcome (A : Type) : Type :=
| Returns (a : A)
| Panics (p : panic)
| Diverges.

Arguments Returns {A} a.
Arguments Panics {A} p.
Arguments Diverges {A}.

Definition bind {A B} (m : outcome A) (k : A -> outcome B) : outcome B :=
  match m with
  | Returns a => k a
  | Panics p => Panics p
  | Diverges => Diverges
  end.

Notation "'do' x <- m ; k" := (bind m (fun x => k))
  (at level 10, x name, m at level 100, k at level 200).

Definition outcome_map {A B} (f : A -> B) (m : outcome A) : outcome B :=
  do a <- m; Returns (f a).

(** ** Bytes and strings *)

Definition byteval (c : ascii) : Z := Z.of_N (N_of_ascii c).
Definition byteof (n : Z) : ascii := ascii_of_N (Z.to_N n).

Definition TAB : string := String (ascii_of_nat 9) EmptyString.
Definition LF : string := String (ascii_of_nat 10) EmptyString.
Definition CR : string := String (ascii_of_nat 13) EmptyString.

(** [len(s)] *)
Definition len (s : string) : Z := Z.of_nat (String.length s).

(** [s[i]] *)
Definition byteAt (s : string) (i : Z) : outcome ascii :=
  if (0 <=? i) && (i <? len s) then
    match String.get (Z.to_nat i) s with
    | Some c => Returns c
    | None => Panics (IndexOutOfRange i (len s))
    end
  else Panics (IndexOutOfRange i (len s)).

(** [s[lo:hi]] *)
Definition slice (s : string) (lo hi : Z) : outcome string :=
  if (0 <=? lo) && (lo <=? hi) && (hi <=? len s) then
    Returns (substring (Z.to_nat lo) (Z.to_nat (hi - lo)) s)
  else Panics (SliceOutOfRange lo hi (len s)).

(** [l[i]] on a slice of strings *)
Definition index {A} (l : list A) (i : Z) : outcome A :=
  if (0 <=? i) && (i <? Z.of_nat (length l)) then
    match l !! Z.to_nat i with
    | Some x => Returns x
    | None => Panics (IndexOutOfRange i (Z.of_nat (length l)))
    end
  else Panics (IndexOutOfRange i (Z.of_nat (length l))).

(** [string(b)] for a byte [b]: the UTF-8 encoding of the code point
    [b], one byte below 0x80 and two bytes from there on. *)
Definition stringOfByte (b : ascii) : string :=
  if byteval b <? 128 then String b EmptyString
  else String (byteof (Z.lor 192 (Z.shiftr (byteval b) 6)))
         (String (byteof (Z.lor 128 (Z.land (byteval b) 63))) EmptyString).

(** *** Package strings *)

(** [strings.HasPrefix(s, p)] *)
Definition HasPrefix (s p : string) : bool := String.prefix p s.

(** [strings.Index(s, sub)]: the offset of the first occurrence, or -1. *)
Fixpoint indexFrom (sub s : string) (i : Z) : Z :=
  if String.prefix sub s then i
  else match s with
       | EmptyString => -1
       | String _ s' => indexFrom sub s' (i + 1)
       end.

Definition Index (s sub : string) : Z := indexFrom sub s 0.

(** [strings.Contains(s, sub)] *)
Definition Contains (s sub : string) : bool := 0 <=? Index s sub.

(** [strings.TrimPrefix(s, p)] *)
Definition TrimPrefix (s p : string) : string :=
  if HasPrefix s p
  then substring (String.length p) (String.length s - String.length p) s
  else s.

(** [strings.Split(s, sep)] for a separator that is not empty (the
    program only passes the literals of one to three bytes below): the
    pieces of [s] between the occurrences of [sep], found left to right
    and not overlapping.  [skip] counts the bytes of a separator still to
    be passed over, [cur] is the piece being collected. *)
Fixpoint splitFrom (sep : string) (skip : nat) (cur s : string) : list string :=
  match s with
  | EmptyString => [cur]
  | String c s' =>
    match skip with
    | S k => splitFrom sep k cur s'
    | O =>
      if String.prefix sep s
      then cur :: splitFrom sep (String.length sep - 1) EmptyString s'
      else splitFrom sep 0 (cur +:+ String c EmptyString) s'
    end
  end.

Definition Split (s sep : string) : list string := splitFrom sep 0 EmptyString s.

(** ** Errors *)

Inductive numError : Type := ErrSyntax | ErrRange.

(** A value of the interface type [error]: [Nil], or one of the error
    types the program meets. *)
Inductive error : Type :=
| Nil
| ParseError (Line : string) (Err : error)
| errorString (s : string)
| NumError (Func Num : string) (Err : numError)
| AddrError (Err Addr : string)
| Errno (n : Z).

(** ** Package strconv *)

Definition isDigit (c : ascii) : bool := (48 <=? byteval c) && (byteval c <=? 57).

Fixpoint digitsValue (s : string) (acc : Z) : option Z :=
  match s with
  | EmptyString => Some acc
  | String c s' =>
    if isDigit c then digitsValue s' (acc * 10 + (byteval c - 48)) else None
  end.

(** [strconv.Atoi(s)]: an optional sign, then decimal digits only, and
    the value must fit the 64-bit [int]. *)
Definition Atoi (s : string) : Z * error :=
  let '(neg, body) :=
    match s with
    | String "-"%char r => (true, r)
    | String "+"%char r => (false, r)
    | _ => (false, s)
    end in
  match body with
  | EmptyString => (0, NumError "Atoi" s ErrSyntax)
  | _ =>
    match digitsValue body 0 with
    | None => (0, NumError "Atoi" s ErrSyntax)
    | Some n =>
      let v := if neg then - n else n in
      if v <? - 2 ^ 63 then (- 2 ^ 63, NumError "Atoi" s ErrRange)
      else if 2 ^ 63 - 1 <? v then (2 ^ 63 - 1, NumError "Atoi" s ErrRange)
      else (v, Nil)
    end
  end.

(** ** The message router of [readLoop] *)

Record message : Type := Message {
  priority : Z;
  data : string;
  err : error
}.

Inductive channel : Type := solicited | unsolicited.

(** The classification at the end of one round of [readLoop]: the
    channel the datagram [buf] goes to and the message sent on it. *)
Definition route (buf : string) : outcome (channel * message) :=
  do tagged <-
    (if 3 <=? len buf then
       do b0 <- byteAt buf 0;
       if Ascii.eqb b0 "<" then
         do b2 <- byteAt buf 2;
         Returns (Ascii.eqb b2 ">")
       else Returns false
     else Returns false);
  if tagged then
    do b1 <- byteAt buf 1;
    if existsb (Ascii.eqb b1) ["0"; "1"; "2"; "3"; "4"]%char then
      let p := fst (Atoi (stringOfByte b1)) in
      do rest <- slice buf 3 (len buf);
      Returns (unsolicited, Message p rest Nil)
    else Returns (solicited, Message 2 buf Nil)
  else Returns (solicited, Message 2 buf Nil).


(** ** Package encoding/hex *)

Definition fromHexChar (c : ascii) : option Z :=
  let v := byteval c in
  if (48 <=? v) && (v <=? 57) then Some (v - 48)
  else if (97 <=? v) && (v <=? 102) then Some (v - 97 + 10)
  else if (65 <=? v) && (v <=? 70) then Some (v - 65 + 10)
  else None.

(** The bytes [hex.DecodeString(s)] returns: the pairs of hexadecimal
    digits decoded before the first byte that is not one (or before an
    odd byte left over).  Its error is dropped by the one caller. *)
Fixpoint DecodeString (s : string) : string :=
  match s with
  | String p (String q rest) =>
    match fromHexChar p, fromHexChar q with
    | Some a, Some b => String (byteof (a * 16 + b)) (DecodeString rest)
    | _, _ => EmptyString
    end
  | _ => EmptyString
  end.

(** ** The wire codec: [decodeByteLiteralString] *)

Definition BACKSLASH : string := String (ascii_of_nat 92) EmptyString.

(** One round of the loop of [decodeByteLiteralString] per unit of fuel;
    [idx] and [result] are the loop's variables.  The operands of [&&]
    are evaluated left to right and only as far as needed. *)
Fixpoint decodeLoop (fuel : nat) (input : string) (idx : Z) (result : string)
  : outcome string :=
  let length := len input in
  if idx <? length then
    match fuel with
    | O => Diverges
    | S fuel' =>
      do pair <-
        (if idx <? length - 2 then
           do s <- slice input idx (idx + 2);
           Returns (String.eqb s (BACKSLASH +:+ BACKSLASH))
         else Returns false);
      if pair then
        do s <- slice input idx (idx + 1);
        decodeLoop fuel' input (idx + 2) (result +:+ s)
      else
        do hex <-
          (if idx <? length + 3 then
             do b0 <- byteAt input idx;
             if String.eqb (stringOfByte b0) BACKSLASH then
               do b1 <- byteAt input (idx + 1);
               Returns (String.eqb (stringOfByte b1) "x")
             else Returns false
           else Returns false);
        if hex then
          do s <- slice input (idx + 2) (idx + 4);
          let byts := DecodeString s in
          decodeLoop fuel' input (idx + 4) (result +:+ byts)
        else
          do b <- byteAt input idx;
          decodeLoop fuel' input (idx + 1) (result +:+ String b EmptyString)
    end
  else Returns result.

(** Every round advances [idx] by at least one, so [len(input)] rounds
    are enough. *)
Definition decodeByteLiteralString (input : string) : outcome string :=
  decodeLoop (String.length input) input 0 EmptyString.

(** ** Package net: [ParseMAC] *)

Definition HardwareAddr : Type := string.

(** [xtoi2(s, e)]: the byte written by the first two bytes of [s] as
    hexadecimal digits; a third byte, when there is one, must be [e].
    [ParseMAC] only calls it on two bytes or more. *)
Definition xtoi2 (s : string) (e : ascii) : option ascii :=
  match s with
  | String a (String b rest) =>
    let sepOk := match rest with
                 | String c _ => Ascii.eqb c e
                 | EmptyString => true
                 end in
    if sepOk then
      match fromHexChar a, fromHexChar b with
      | Some x, Some y => Some (byteof (x * 16 + y))
      | _, _ => None
      end
    else None
  | _ => None
  end.

(** [s[x:]] for [x] within [s] *)
Definition from (s : string) (x : nat) : string :=
  substring x (String.length s - x) s.

(** The loop of the colon or dash form: [n] groups of two digits, three
    bytes apart from offset [x]. *)
Fixpoint macGroups3 (s : string) (sep : ascii) (n : nat) (x : nat) : option string :=
  match n with
  | O => Some EmptyString
  | S n' =>
    match xtoi2 (from s x) sep with
    | Some b =>
      match macGroups3 s sep n' (x + 3) with
      | Some hw => Some (String b hw)
      | None => None
      end
    | None => None
    end
  end.

(** The loop of the dotted form: [n] groups of four digits, five bytes
    apart from offset [x]. *)
Fixpoint macGroups5 (s : string) (sep : ascii) (n : nat) (x : nat) : option string :=
  match n with
  | O => Some EmptyString
  | S n' =>
    match xtoi2 (substring x 2 s) (ascii_of_nat 0), xtoi2 (from s (x + 2)) sep with
    | Some b1, Some b2 =>
      match macGroups5 s sep n' (x + 5) with
      | Some hw => Some (String b1 (String b2 hw))
      | None => None
      end
    | _, _ => None
    end
  end.

Definition macLength (n : Z) : bool := (n =? 6) || (n =? 8) || (n =? 20).

(** [net.ParseMAC(s)]: six, eight or twenty bytes written as pairs of
    hexadecimal digits separated by colons or by dashes, or as groups of
    four digits separated by dots. *)
Definition ParseMAC (s : string) : HardwareAddr * error :=
  let bad := (EmptyString, AddrError "invalid MAC address" s) in
  if len s <? 14 then bad
  else
    match String.get 2 s, String.get 4 s with
    | Some s2, Some s4 =>
      if Ascii.eqb s2 ":" || Ascii.eqb s2 "-" then
        if negb ((len s + 1) mod 3 =? 0) then bad
        else
          let n := (len s + 1) / 3 in
          if negb (macLength n) then bad
          else match macGroups3 s s2 (Z.to_nat n) 0 with
               | Some hw => (hw, Nil)
               | None => bad
               end
      else if Ascii.eqb s4 "." then
        if negb ((len s + 1) mod 5 =? 0) then bad
        else
          let n := 2 * (len s + 1) / 5 in
          if negb (macLength n) then bad
          else match macGroups5 s s4 (Z.to_nat (n / 2)) 0 with
               | Some hw => (hw, Nil)
               | None => bad
               end
      else bad
    | _, _ => bad
    end.

(** ** Package bufio: a [Scanner] with the default line splitter *)

Definition MaxScanTokenSize : Z := 65536.

(** A line without one carriage return at its end, if it has one. *)
Fixpoint dropCR (s : string) : string :=
  match s with
  | EmptyString => EmptyString
  | String c EmptyString =>
    if Ascii.eqb c (ascii_of_nat 13) then EmptyString else s
  | String c s' => String c (dropCR s')
  end.

(** The lines that successive calls of [s.Scan()] deliver as [s.Text()]
    until [Scan] answers false: each line ends at a newline, which is
    dropped with a carriage return before it; bytes after the last
    newline are a last line; a line that fills the scanner's buffer of
    [MaxScanTokenSize] bytes before its newline ends the scan.  [n] is
    the number of bytes of the line collected in [cur]. *)
Fixpoint scanFrom (n : Z) (cur s : string) : list string :=
  match s with
  | EmptyString => if n =? 0 then [] else [dropCR cur]
  | String c s' =>
    if Ascii.eqb c (ascii_of_nat 10) then dropCR cur :: scanFrom 0 EmptyString s'
    else if MaxScanTokenSize - 1 <=? n then []
    else scanFrom (n + 1) (cur +:+ String c EmptyString) s'
  end.

Definition ScanLines (resp : string) : list string := scanFrom 0 EmptyString resp.

(** ** The response parsers *)

(** The flag list of a field [f]: the pieces between the brackets when
    [f] is at least two bytes long, starts with an opening bracket and
    ends with a closing one; no flags otherwise. *)
Definition parseFlags (f : string) : outcome (list string) :=
  do bracketed <-
    (if 2 <=? len f then
       do b0 <- byteAt f 0;
       if Ascii.eqb b0 "[" then
         do bl <- byteAt f (len f - 1);
         Returns (Ascii.eqb bl "]")
       else Returns false
     else Returns false);
  if bracketed then
    do inner <- slice f 1 (len f - 1);
    Returns (Split inner "][")
  else Returns [].

(** *** [parseListNetworksResult] *)

Module configuredNetwork.
Record t : Type := mk {
  networkID : string;
  ssid : string;
  bssid : string;
  flags : list string
}.
End configuredNetwork.

Module Networks.
(** The column variables of [parseListNetworksResult]. *)
Record cols : Type := mk {
  networkIDCol : Z;
  ssidCol : Z;
  bssidCol : Z;
  flagsCol : Z;
  maxCol : Z
}.

Definition init : cols := mk (-1) (-1) (-1) (-1) (-1).

(** The body of the loop over the header's columns. *)
Definition column (st : cols) (n : Z) (col : string) : cols :=
  let st' :=
    if String.eqb col "network id" then
      mk n (ssidCol st) (bssidCol st) (flagsCol st) (maxCol st)
    else if String.eqb col "ssid" then
      mk (networkIDCol st) n (bssidCol st) (flagsCol st) (maxCol st)
    else if String.eqb col "bssid" then
      mk (networkIDCol st) (ssidCol st) n (flagsCol st) (maxCol st)
    else if String.eqb col "flags" then
      mk (networkIDCol st) (ssidCol st) (bssidCol st) n (maxCol st)
    else st in
  mk (networkIDCol st') (ssidCol st') (bssidCol st') (flagsCol st') n.

Fixpoint header (columns : list string) (n : Z) (st : cols) : cols :=
  match columns with
  | [] => st
  | col :: rest => header rest (n + 1) (column st n col)
  end.

(** The body of the loop over the data rows, from the split of the
    line on: the record to append. *)
Definition row (st : cols) (fields : list string) : outcome configuredNetwork.t :=
  do networkID <-
    (if negb (networkIDCol st =? -1) then index fields (networkIDCol st)
     else Returns EmptyString);
  do ssid <-
    (if negb (ssidCol st =? -1) then index fields (ssidCol st)
     else Returns EmptyString);
  do bssid <-
    (if negb (bssidCol st =? -1) then index fields (bssidCol st)
     else Returns EmptyString);
  do flags <-
    (if negb (flagsCol st =? -1) then
       do f <- index fields (flagsCol st); parseFlags f
     else Returns []);
  Returns (configuredNetwork.mk networkID ssid bssid flags).

Fixpoint rows (st : cols) (lines : list string) (res : list configuredNetwork.t)
  : outcome (list configuredNetwork.t * error) :=
  match lines with
  | [] => Returns (res, Nil)
  | ln :: rest =>
    let fields := Split ln TAB in
    if Z.of_nat (length fields) <? maxCol st then Returns ([], ParseError ln Nil)
    else
      do r <- row st fields;
      rows st rest (res ++ [r])
  end.
End Networks.

Definition parseListNetworksResult (resp : string)
  : outcome (list configuredNetwork.t * error) :=
  match ScanLines resp with
  | [] => Returns ([], ParseError EmptyString Nil)
  | hdr :: lines =>
    Networks.rows (Networks.header (Split hdr " / ") 0 Networks.init) lines []
  end.

(** *** [parseStatusResults] *)

Module statusResult.
Record t : Type := mk {
  wpaState : string;
  keyMgmt : string;
  ipAddr : string;
  ssid : string;
  address : string;
  bssid : string;
  frequency : string;
  idStr : string
}.

Definition zero : t := mk "" "" "" "" "" "" "" "".
End statusResult.

Module Status.
Import statusResult.

(** The [switch] on the key: the assignment it selects. *)
Definition assign (res : t) (key value : string) : t :=
  if String.eqb key "wpa_state" then
    mk value (keyMgmt res) (ipAddr res) (ssid res) (address res) (bssid res) (frequency res) (idStr res)
  else if String.eqb key "key_mgmt" then
    mk (wpaState res) value (ipAddr res) (ssid res) (address res) (bssid res) (frequency res) (idStr res)
  else if String.eqb key "ip_address" then
    mk (wpaState res) (keyMgmt res) value (ssid res) (address res) (bssid res) (frequency res) (idStr res)
  else if String.eqb key "ssid" then
    mk (wpaState res) (keyMgmt res) (ipAddr res) value (address res) (bssid res) (frequency res) (idStr res)
  else if String.eqb key "address" then
    mk (wpaState res) (keyMgmt res) (ipAddr res) (ssid res) value (bssid res) (frequency res) (idStr res)
  else if String.eqb key "bssid" then
    mk (wpaState res) (keyMgmt res) (ipAddr res) (ssid res) (address res) value (frequency res) (idStr res)
  else if String.eqb key "freq" then
    mk (wpaState res) (keyMgmt res) (ipAddr res) (ssid res) (address res) (bssid res) value (idStr res)
  else if String.eqb key "id_str" then
    mk (wpaState res) (keyMgmt res) (ipAddr res) (ssid res) (address res) (bssid res) (frequency res) value
  else res.

(** The body of the loop over the lines. *)
Definition line (res : t) (ln : string) : outcome t :=
  let fields := Split ln "=" in
  if negb (Z.of_nat (length fields) =? 2) then Returns res
  else
    do key <- index fields 0;
    do value <- index fields 1;
    Returns (assign res key value).

Fixpoint lines (res : t) (lns : list string) : outcome t :=
  match lns with
  | [] => Returns res
  | ln :: rest => do res' <- line res ln; lines res' rest
  end.
End Status.

Definition parseStatusResults (resp : string) : outcome (statusResult.t * error) :=
  do res <- Status.lines statusResult.zero (ScanLines resp);
  Returns (res, Nil).

(** *** [parseScanResults] *)

Module scanResult.
Record t : Type := mk {
  bssid : HardwareAddr;
  frequency : Z;
  rssi : Z;
  flags : list string;
  ssid : string
}.
End scanResult.

Module Scan.
(** The column variables of [parseScanResults]. *)
Record cols : Type := mk {
  bssidCol : Z;
  freqCol : Z;
  rssiCol : Z;
  flagsCol : Z;
  ssidCol : Z;
  maxCol : Z
}.

Definition init : cols := mk (-1) (-1) (-1) (-1) (-1) (-1).

Definition column (st : cols) (n : Z) (col : string) : cols :=
  let st' :=
    if String.eqb col "bssid" then
      mk n (freqCol st) (rssiCol st) (flagsCol st) (ssidCol st) (maxCol st)
    else if String.eqb col "frequency" then
      mk (bssidCol st) n (rssiCol st) (flagsCol st) (ssidCol st) (maxCol st)
    else if String.eqb col "signal level" then
      mk (bssidCol st) (freqCol st) n (flagsCol st) (ssidCol st) (maxCol st)
    else if String.eqb col "flags" then
      mk (bssidCol st) (freqCol st) (rssiCol st) n (ssidCol st) (maxCol st)
    else if String.eqb col "ssid" then
      mk (bssidCol st) (freqCol st) (rssiCol st) (flagsCol st) n (maxCol st)
    else st in
  mk (bssidCol st') (freqCol st') (rssiCol st') (flagsCol st') (ssidCol st') n.

Fixpoint header (columns : list string) (n : Z) (st : cols) : cols :=
  match columns with
  | [] => st
  | col :: rest => header rest (n + 1) (column st n col)
  end.

(** What one round of the loop over the data rows does after the
    length check: append a record, or append an error and go on. *)
Inductive step : Type :=
| Record_ (r : scanResult.t)
| Reject (e : error).

Definition row (st : cols) (ln : string) (fields : list string) : outcome step :=
  do bssid <-
    (if negb (bssidCol st =? -1) then
       do f <- index fields (bssidCol st); Returns (ParseMAC f)
     else Returns (EmptyString, Nil));
  match snd bssid with
  | Nil =>
    do freq <-
      (if negb (freqCol st =? -1) then
         do f <- index fields (freqCol st); Returns (Atoi f)
       else Returns (0, Nil));
    match snd freq with
    | Nil =>
      do rssi <-
        (if negb (rssiCol st =? -1) then
           do f <- index fields (rssiCol st); Returns (Atoi f)
         else Returns (0, Nil));
      match snd rssi with
      | Nil =>
        do flags <-
          (if negb (flagsCol st =? -1) then
             do f <- index fields (flagsCol st); parseFlags f
           else Returns []);
        do ssid <-
          (if negb (ssidCol st =? -1) then
             do f <- index fields (ssidCol st); decodeByteLiteralString f
           else Returns EmptyString);
        Returns (Record_ (scanResult.mk (fst bssid) (fst freq) (fst rssi) flags ssid))
      | err => Returns (Reject (ParseError ln err))
      end
    | err => Returns (Reject (ParseError ln err))
    end
  | err => Returns (Reject (ParseError ln err))
  end.

Fixpoint rows (st : cols) (lines : list string)
         (res : list scanResult.t) (errs : list error)
  : outcome (list scanResult.t * list error) :=
  match lines with
  | [] => Returns (res, errs)
  | ln :: rest =>
    let fields := Split ln TAB in
    if Z.of_nat (length fields) <? maxCol st
    then rows st rest res (errs ++ [ParseError ln Nil])
    else
      do s <- row st ln fields;
      match s with
      | Record_ r => rows st rest (res ++ [r]) errs
      | Reject e => rows st rest res (errs ++ [e])
      end
  end.
End Scan.

Definition parseScanResults (resp : string)
  : outcome (list scanResult.t * list error) :=
  match ScanLines resp with
  | [] => Returns ([], [ParseError EmptyString Nil])
  | hdr :: lines =>
    Scan.rows (Scan.header (Split hdr " / ") 0 Scan.init) lines [] []
  end.

(** ** The event decoder of [readUnsolicited] *)

(** Modelled from the spec: the declaration of the type [WPAEvent] is
    not in [unixgram.go].  An Event has a name, the original line
    verbatim, and a mapping of argument names to values; the field names
    are the ones [readUnsolicited] assigns.  A [nil] map and an empty map
    read alike and are both the empty [gmap]. *)
Record WPAEvent : Type := mkWPAEvent {
  Event : string;
  Arguments : gmap string string;
  Line : string
}.

(** The loop over [parts[1:]] that fills [event.Arguments]. *)
Fixpoint arguments (tokens : list string) (m : gmap string string)
  : outcome (gmap string string) :=
  match tokens with
  | [] => Returns m
  | args :: rest =>
    if Contains args "=" then
      let keyval := Split args "=" in
      if negb (Z.of_nat (length keyval) =? 2) then arguments rest m
      else
        do k <- index keyval 0;
        do v <- index keyval 1;
        arguments rest (<[k := v]> m)
    else arguments rest m
  end.

(** [l[1:]] on a slice of strings *)
Definition tail1 {A} (l : list A) : outcome (list A) :=
  match l with
  | [] => Panics (SliceOutOfRange 1 0 0)
  | _ :: rest => Returns rest
  end.

(** What [readUnsolicited] makes of the message [mgs] received from the
    channel [unsolicited]: the event it then offers on [wpaEvents], or
    none when it goes on to the next message. *)
Definition decodeEvent (mgs : message) : outcome (option WPAEvent) :=
  let data := data mgs in
  let parts := Split data " " in
  if Z.of_nat (length parts) =? 0 then Returns None
  else
    do p0 <- index parts 0;
    if negb (Index p0 "CTRL-" =? 0) then
      Returns (Some (mkWPAEvent "MESSAGE" ∅ data))
    else
      do wrongKey <-
        (if 6 <=? Z.of_nat (length parts) then
           do p5 <- index parts 5;
           Returns (String.eqb p5 "reason=WRONG_KEY")
         else Returns false);
      let name := if wrongKey then "BAD-PASSPHRASE"
                  else TrimPrefix p0 "CTRL-EVENT-" in
      do rest <- tail1 parts;
      do args <- arguments rest ∅;
      Returns (Some (mkWPAEvent name args data)).

(** ** The command executor: [cmd] and [runCommand] *)

(** Which case of the [select] in [cmd] fires. *)
Inductive awaited : Type :=
| Received (msg : message)
| TimedOut.

(** [bytes.Compare(a, b)] *)
Definition Compare (a b : string) : Z :=
  match String.compare a b with
  | Eq => 0
  | Lt => -1
  | Gt => 1
  end.

Section Executor.
(** The connection as [cmd] meets it: the error [uc.c.Write] answers
    for a command, and what then comes first, a message on the channel
    [solicited] or the end of the thirty seconds. *)
Variable Write : string -> error.
Variable await : string -> awaited.

Definition cmd (command : string) : string * error :=
  match Write command with
  | Nil =>
    match await command with
    | Received msg => (data msg, err msg)
    | TimedOut => (EmptyString, errorString "Timed out waiting for response")
    end
  | e => (EmptyString, e)
  end.

Definition runCommand (command : string) : error :=
  let '(resp, e) := cmd command in
  match e with
  | Nil =>
    if Compare resp ("OK" +:+ LF) =? 0 then Nil
    else ParseError resp Nil
  | _ => e
  end.
End Executor.

(** ** Notions the properties are stated with *)

(** The digits of a priority tag. *)
Definition priorityDigit (d : ascii) : Prop :=
  d = "0"%char \/ d = "1"%char \/ d = "2"%char \/ d = "3"%char \/ d = "4"%char.

(** A datagram that starts with a priority tag. *)
Definition tagged (buf : string) : Prop :=
  exists d rest, buf = String "<" (String d (String ">" rest)) /\ priorityDigit d.

(** Whether the byte [c] occurs in [s]. *)
Fixpoint mentions (c : ascii) (s : string) : bool :=
  match s with
  | EmptyString => false
  | String a s' => Ascii.eqb a c || mentions c s'
  end.

(** [s] cut at its first byte [c]: what is before it and what is after. *)
Fixpoint cut (c : ascii) (s : string) : option (string * string) :=
  match s with
  | EmptyString => None
  | String a s' =>
    if Ascii.eqb a c then Some (EmptyString, s')
    else match cut c s' with
         | Some (x, y) => Some (String a x, y)
         | None => None
         end
  end.

(** A token with exactly one '=': its key and its value. *)
Definition keyValue (t : string) : option (string * string) :=
  match cut "=" t with
  | Some (k, v) => if mentions "=" v then None else Some (k, v)
  | None => None
  end.

(** The map a list of tokens fills: the key and the value of every token
    that has exactly one '=', a later token replacing an earlier one with
    the same key. *)
Definition argumentsOf (tokens : list string) (m : gmap string string)
  : gmap string string :=
  fold_left (fun m t => match keyValue t with
                        | Some (k, v) => <[k := v]> m
                        | None => m
                        end) tokens m.

(** The sixth token is the reason of a wrong key. *)
Definition wrongKey (parts : list string) : bool :=
  match parts !! 5%nat with
  | Some p5 => String.eqb p5 "reason=WRONG_KEY"
  | None => false
  end.

(** What a status response reports under [key]: the value of the last
    line that is the key, one '=' and a value without '='; [init] when
    there is no such line. *)
Definition reported (key : string) (lines : list string) (init : string) : string :=
  fold_left (fun acc ln => match keyValue ln with
                           | Some (k, v) => if String.eqb k key then v else acc
                           | None => acc
                           end) lines init.

(** A computation that ends, with a value or with a panic. *)
Definition settles {A} (m : outcome A) : Prop := m <> Diverges.

(** The encoding the codec undoes: a backslash is written twice, another
    printable byte (0x20 to 0x7e) as itself, and any other byte as a
    backslash, an x and its two hexadecimal digits. *)
Definition hexDigit (n : Z) : ascii :=
  if n <? 10 then byteof (48 + n) else byteof (97 + (n - 10)).

Definition encodeByte (b : ascii) : string :=
  if Ascii.eqb b (ascii_of_nat 92) then BACKSLASH +:+ BACKSLASH
  else if (32 <=? byteval b) && (byteval b <=? 126) then String b EmptyString
  else BACKSLASH +:+ "x" +:+
       String (hexDigit (byteval b / 16)) (String (hexDigit (byteval b mod 16)) EmptyString).

Fixpoint encodeByteLiteral (bytes : string) : string :=
  match bytes with
  | EmptyString => EmptyString
  | String b rest => encodeByte b +:+ encodeByteLiteral rest
  end.



(** The index the loop over a header leaves in the variable of the
    column [name]: the index of the last column with that name, counted
    from [n], or [acc] when there is none. *)
Fixpoint lastIndex (name : string) (columns : list string) (n acc : Z) : Z :=
  match columns with
  | [] => acc
  | col :: rest => lastIndex name rest (n + 1) (if String.eqb col name then n else acc)
  end.

(** [l'] is [l] with its entries moved as [p] says: entry [j] of [l'] is
    entry [p[j]] of [l], an entry that [l] lacks being one that [l'] lacks. *)
Definition permuted {A} (p : list nat) (l l' : list A) : Prop :=
  length l' = length l /\
  forall j i, p !! j = Some i -> l' !! j = l !! i.

(** The header columns of a response. *)
Definition headerColumns (resp : string) : list string :=
  match ScanLines resp with
  | [] => []
  | hdr :: _ => Split hdr " / "
  end.

(** [resp'] is [resp] with the columns moved as [p] says, in the header
    and in every data row. *)
Definition columnsPermuted (p : list nat) (resp resp' : string) : Prop :=
  exists hdr hdr' rows rows',
    ScanLines resp = hdr :: rows /\
    ScanLines resp' = hdr' :: rows' /\
    permuted p (Split hdr " / ") (Split hdr' " / ") /\
    Forall2 (fun r r' => permuted p (Split r TAB) (Split r' TAB)) rows rows'.

(** The record of a round of the loop of [parseScanResults], if any. *)
Definition recordOf (s : Scan.step) : option scanResult.t :=
  match s with
  | Scan.Record_ r => Some r
  | Scan.Reject _ => None
  end.

(** A column variable reads the same field in two rows: it is -1 for
    both or for neither, and then the two accesses agree. *)
Definition sameField (fields fields' : list string) (c c' : Z) : Prop :=
  (c' =? -1) = (c =? -1) /\
  ((c =? -1) = false -> index fields' c' = index fields c).

(** The last byte of a byte sequence. *)
Fixpoint lastByte (s : string) : option ascii :=
  match s with
  | EmptyString => None
  | String c EmptyString => Some c
  | String _ s' => lastByte s'
  end.

(** The error of a round of the loop of [parseScanResults], if any. *)
Definition errorOf (s : Scan.step) : option error :=
  match s with
  | Scan.Record_ _ => None
  | Scan.Reject e => Some e
  end.

(** One round of the loop of [parseScanResults] on the line [ln]: the
    length check, then the row. *)
Definition verdict (st : Scan.cols) (ln : string) : outcome Scan.step :=
  let fields := Split ln TAB in
  if Z.of_nat (length fields) <? Scan.maxCol st
  then Returns (Scan.Reject (ParseError ln Nil))
  else Scan.row st ln fields.

(** The texts the decoder is written for, with the bytes they stand
    for: a byte other than a backslash stands for itself, two
    backslashes with more text after them for one backslash, and a
    backslash, an x and two hexadecimal digits for the byte the digits
    write. *)
Inductive written : string -> string -> Prop :=
| written_end : written EmptyString EmptyString
| written_plain b bytes text :
    b <> ascii_of_nat 92 -> written bytes text ->
    written (String b bytes) (String b text)
| written_pair bytes text :
    text <> EmptyString -> written bytes text ->
    written (String (ascii_of_nat 92) bytes)
            (String (ascii_of_nat 92) (String (ascii_of_nat 92) text))
| written_hex h1 h2 v1 v2 bytes text :
    fromHexChar h1 = Some v1 -> fromHexChar h2 = Some v2 ->
    written bytes text ->
    written (String (byteof (v1 * 16 + v2)) bytes)
            (String (ascii_of_nat 92) (String "x" (String h1 (String h2 text)))).

(** ** One round of [readLoop] *)

(** [syscall.EWOULDBLOCK], the error of a peek that finds no datagram. *)
Definition EWOULDBLOCK : error := Errno 11.

(** [err == syscall.EWOULDBLOCK] *)
Definition isEWOULDBLOCK (e : error) : bool :=
  match e with
  | Errno n => n =? 11
  | _ => false
  end.

(** Which case of a [select] between a send and [readLoopCloseChan]
    proceeds. *)
Inductive selected : Type := SendTaken | CloseTaken.

(** How a round of [readLoop] ends: the function returns, or the loop
    goes on after having sent a message, or none. *)
Inductive round : Type :=
| Returned
| Continued (sent : option (channel * message)).

(** The [select] that offers a message on a channel. *)
Definition offer (sel : selected) (c : channel) (m : message) : round :=
  match sel with
  | SendTaken => Continued (Some (c, m))
  | CloseTaken => Returned
  end.

(** One round of the loop of [readLoop].  [recv] is what [Recvfrom]
    answers, [closing] whether the close signal is there after the
    sleep, [read] the buffer after [uc.c.Read] with the error it answers,
    and [sel] the case of the [select] that proceeds. *)
Definition readRound (recv : Z * error) (closing : bool)
           (read : string * error) (sel : selected) : outcome round :=
  match snd recv with
  | Nil =>
    match snd read with
    | Nil =>
      do cm <- route (fst read);
      Returns (offer sel (fst cm) (snd cm))
    | e => Returns (offer sel solicited (Message 0 EmptyString e))
    end
  | e =>
    if isEWOULDBLOCK e then
      Returns (if closing then Returned else Continued None)
    else Returns (offer sel solicited (Message 0 EmptyString e))
  end.

(** [Ping] *)
Definition Ping (Write : string -> error) (await : string -> awaited) : error :=
  let '(resp, e) := cmd Write await "PING" in
  match e with
  | Nil =>
    if Compare resp ("PONG" +:+ LF) =? 0 then Nil
    else ParseError resp Nil
  | _ => e
  end.

(** A flags field as the daemon writes it: every flag between brackets. *)
Definition bracketed (flags : list string) : string :=
  "[" +:+ String.concat "][" flags +:+ "]".

(** ** The typed commands that read a value back *)

(** The decimal digits of a number that is not negative, before [acc];
    one digit per unit of fuel. *)
Fixpoint digits (fuel : nat) (n : Z) (acc : string) : string :=
  match fuel with
  | O => acc
  | S fuel' =>
    let acc' := String (byteof (48 + n mod 10)) acc in
    if n <? 10 then acc' else digits fuel' (n / 10) acc'
  end.

(** The verb [%d] of [fmt.Sprintf] on an [int]: the decimal digits, after
    a minus sign for a negative number.  A 64-bit [int] has at most
    nineteen digits. *)
Definition Itoa (n : Z) : string :=
  if n <? 0 then "-" +:+ digits 20 (- n) EmptyString
  else digits 20 n EmptyString.

(** [strings.TrimLeft(s, cutset)] and [strings.TrimRight(s, cutset)] for
    a cutset of bytes below 0x80. *)
Fixpoint TrimLeft (s cutset : string) : string :=
  match s with
  | EmptyString => EmptyString
  | String c s' => if mentions c cutset then TrimLeft s' cutset else s
  end.

Fixpoint TrimRight (s cutset : string) : string :=
  match s with
  | EmptyString => EmptyString
  | String c s' =>
    match TrimRight s' cutset with
    | EmptyString => if mentions c cutset then EmptyString else String c EmptyString
    | t => String c t
    end
  end.

(** [strings.Trim(s, cutset)] *)
Definition Trim (s cutset : string) : string :=
  TrimRight (TrimLeft s cutset) cutset.

(** [AddNetwork] *)
Definition AddNetwork (Write : string -> error) (await : string -> awaited)
  : Z * error :=
  let '(resp, e) := cmd Write await "ADD_NETWORK" in
  match e with
  | Nil => Atoi (Trim resp LF)
  | _ => (-1, e)
  end.

(** [GetNetwork] *)
Definition GetNetwork (Write : string -> error) (await : string -> awaited)
           (networkID : Z) (variable : string) : outcome (string * error) :=
  let '(resp, e) :=
    cmd Write await ("GET_NETWORK " +:+ Itoa networkID +:+ " " +:+ variable) in
  match e with
  | Nil =>
    if String.eqb resp ("FAIL" +:+ LF) then Returns ("FAIL", errorString "Failed")
    else if String.eqb variable "ssid" then
      do s <- decodeByteLiteralString resp; Returns (s, Nil)
    else
      do s <- slice resp 0 (len resp); Returns (s, Nil)
  | _ => Returns ("ERROR", e)
  end.

(** ** The earlier revision of [parseScanResults]

    The other source file holds an earlier state of the module.  Its
    [parseScanResults] has the same header loop and the same row loop,
    and takes the name of a network as the field is, without decoding. *)

Module Revision0.
Definition row (st : Scan.cols) (ln : string) (fields : list string)
  : outcome Scan.step :=
  do bssid <-
    (if negb (Scan.bssidCol st =? -1) then
       do f <- index fields (Scan.bssidCol st); Returns (ParseMAC f)
     else Returns (EmptyString, Nil));
  match snd bssid with
  | Nil =>
    do freq <-
      (if negb (Scan.freqCol st =? -1) then
         do f <- index fields (Scan.freqCol st); Returns (Atoi f)
       else Returns (0, Nil));
    match snd freq with
    | Nil =>
      do rssi <-
        (if negb (Scan.rssiCol st =? -1) then
           do f <- index fields (Scan.rssiCol st); Returns (Atoi f)
         else Returns (0, Nil));
      match snd rssi with
      | Nil =>
        do flags <-
          (if negb (Scan.flagsCol st =? -1) then
             do f <- index fields (Scan.flagsCol st); parseFlags f
           else Returns []);
        do ssid <-
          (if negb (Scan.ssidCol st =? -1) then index fields (Scan.ssidCol st)
           else Returns EmptyString);
        Returns (Scan.Record_ (scanResult.mk (fst bssid) (fst freq) (fst rssi) flags ssid))
      | err => Returns (Scan.Reject (ParseError ln err))
      end
    | err => Returns (Scan.Reject (ParseError ln err))
    end
  | err => Returns (Scan.Reject (ParseError ln err))
  end.

Fixpoint rows (st : Scan.cols) (lines : list string)
         (res : list scanResult.t) (errs : list error)
  : outcome (list scanResult.t * list error) :=
  match lines with
  | [] => Returns (res, errs)
  | ln :: rest =>
    let fields := Split ln TAB in
    if Z.of_nat (length fields) <? Scan.maxCol st
    then rows st rest res (errs ++ [ParseError ln Nil])
    else
      do s <- row st ln fields;
      match s with
      | Scan.Record_ r => rows st rest (res ++ [r]) errs
      | Scan.Reject e => rows st rest res (errs ++ [e])
      end
  end.

Definition parseScanResults (resp : string)
  : outcome (list scanResult.t * list error) :=
  match ScanLines resp with
  | [] => Returns ([], [ParseError EmptyString Nil])
  | hdr :: lines =>
    rows (Scan.header (Split hdr " / ") 0 Scan.init) lines [] []
  end.
End Revision0.

(** * Properties *)

(** ** Strings and indices *)

Lemma len_String c s : len (String c s) = 1 + len s.
Proof. unfold len. cbn [String.length]. lia. Qed.

Lemma len_nonneg s : 0 <= len s.
Proof. unfold len. lia. Qed.

Lemma append_nil_l t : EmptyString +:+ t = t.
Proof. reflexivity. Qed.

Lemma append_cons a s t : String a s +:+ t = String a (s +:+ t).
Proof. reflexivity. Qed.

Lemma length_append s t :
  String.length (s +:+ t) = (String.length s + String.length t)%nat.
Proof.
  induction s as [|a s IH]; [reflexivity|].
  rewrite append_cons. cbn [String.length]. now rewrite IH.
Qed.

Lemma append_nil_r s : s +:+ EmptyString = s.
Proof.
  induction s as [|a s IH]; [reflexivity|]. now rewrite append_cons, IH.
Qed.

Lemma append_assoc s t u : (s +:+ t) +:+ u = s +:+ (t +:+ u).
Proof.
  induction s as [|a s IH]; [reflexivity|]. now rewrite !append_cons, IH.
Qed.

Lemma len_append s t : len (s +:+ t) = len s + len t.
Proof. unfold len. rewrite length_append. lia. Qed.

Lemma substring_all s : substring 0 (String.length s) s = s.
Proof. induction s as [|a s IH]; cbn; [reflexivity | now rewrite IH]. Qed.

Lemma get_is_Some s : forall n,
  (n < String.length s)%nat -> exists c, String.get n s = Some c.
Proof.
  induction s as [|a s IH]; intros n Hn; cbn in *; [lia|].
  destruct n as [|n]; [eauto|]. apply IH. lia.
Qed.

Lemma byteAt_head c s : byteAt (String c s) 0 = Returns c.
Proof.
  unfold byteAt. rewrite len_String. pose proof (len_nonneg s).
  destruct (Z.ltb_spec 0 (1 + len s)); [reflexivity | lia].
Qed.

Lemma byteAt_next c s i : 0 <= i -> i < len s ->
  byteAt (String c s) (i + 1) = byteAt s i.
Proof.
  intros H0 Hi. unfold byteAt. rewrite len_String.
  replace (Z.to_nat (i + 1)) with (S (Z.to_nat i)) by lia. cbn [String.get].
  destruct (get_is_Some s (Z.to_nat i)) as [c' ->]; [unfold len in Hi; lia|].
  destruct (Z.leb_spec 0 (i + 1)), (Z.ltb_spec (i + 1) (1 + len s)),
    (Z.leb_spec 0 i), (Z.ltb_spec i (len s)); try lia. reflexivity.
Qed.

Lemma byteAt_1 a b s : byteAt (String a (String b s)) 1 = Returns b.
Proof.
  change 1 with (0 + 1). rewrite byteAt_next, byteAt_head; [reflexivity|lia|].
  rewrite len_String. pose proof (len_nonneg s). lia.
Qed.

Lemma byteAt_2 a b c s : byteAt (String a (String b (String c s))) 2 = Returns c.
Proof.
  change 2 with (1 + 1). rewrite byteAt_next, byteAt_1; [reflexivity|lia|].
  rewrite !len_String. pose proof (len_nonneg s). lia.
Qed.

Lemma slice_from_3 a b c s :
  slice (String a (String b (String c s))) 3 (len (String a (String b (String c s))))
  = Returns s.
Proof.
  unfold slice. rewrite !len_String. pose proof (len_nonneg s).
  destruct (Z.leb_spec 3 (1 + (1 + (1 + len s)))); [|lia].
  rewrite Z.leb_refl. cbn [Z.leb andb].
  replace (1 + (1 + (1 + len s)) - 3) with (len s) by lia.
  unfold len. rewrite Nat2Z.id. change (Z.to_nat 3) with 3%nat.
  cbn [substring]. now rewrite substring_all.
Qed.

(** ** The message router *)

Lemma priorityDigit_switch d :
  existsb (Ascii.eqb d) ["0"; "1"; "2"; "3"; "4"]%char = true <-> priorityDigit d.
Proof.
  unfold priorityDigit. cbn [existsb]. rewrite orb_false_r.
  rewrite !orb_true_iff, !Ascii.eqb_eq. tauto.
Qed.

(** C1.  A datagram of at least three bytes that starts with '<', one of
    the digits '0' to '4' and '>' goes to the unsolicited channel with
    the digit's value as its priority and without its first three bytes;
    every other datagram, whatever its length, goes to the solicited
    channel with priority 2 and all of its bytes. *)
Theorem route_classifies_datagram (buf : string) :
  (forall d rest,
      buf = String "<" (String d (String ">" rest)) -> priorityDigit d ->
      3 <= len buf /\
      route buf = Returns (unsolicited, Message (byteval d - 48) rest Nil))
  /\ (~ tagged buf -> route buf = Returns (solicited, Message 2 buf Nil)).
Proof.
  split.
  - intros d rest -> Hd.
    assert (H3 : 3 <= len (String "<" (String d (String ">" rest)))).
    { rewrite !len_String. pose proof (len_nonneg rest). lia. }
    split; [exact H3|]. unfold route.
    apply Z.leb_le in H3. rewrite H3, byteAt_head. cbn [bind Ascii.eqb Bool.eqb].
    rewrite byteAt_2. cbn [bind]. rewrite Ascii.eqb_refl, byteAt_1. cbn [bind].
    rewrite (proj2 (priorityDigit_switch d) Hd), slice_from_3. cbn [bind].
    destruct Hd as [-> | [-> | [-> | [-> | ->]]]]; reflexivity.
  - intros Hn. destruct buf as [|a [|b [|c rest]]]; try reflexivity.
    unfold route.
    assert (H3 : (3 <=? len (String a (String b (String c rest)))) = true).
    { rewrite !len_String. pose proof (len_nonneg rest). apply Z.leb_le. lia. }
    rewrite H3, byteAt_head. cbn [bind].
    destruct (Ascii.eqb_spec a "<") as [-> | Ha]; [|reflexivity].
    rewrite byteAt_2. cbn [bind].
    destruct (Ascii.eqb_spec c ">") as [-> | Hc]; [|reflexivity].
    rewrite byteAt_1. cbn [bind].
    destruct (existsb _ _) eqn:Hsw; [|reflexivity].
    exfalso. apply Hn. exists b, rest. split; [reflexivity|].
    now apply priorityDigit_switch.
Qed.

Lemma route_classifies_datagram_witness :
  route "<3>CTRL-EVENT-CONNECTED"
    = Returns (unsolicited, Message 3 "CTRL-EVENT-CONNECTED" Nil)
  /\ route "<9>x" = Returns (solicited, Message 2 "<9>x" Nil)
  /\ route "OK" = Returns (solicited, Message 2 "OK" Nil).
Proof.
  split; [|split].
  - apply (proj1 (route_classifies_datagram "<3>CTRL-EVENT-CONNECTED")
             "3"%char "CTRL-EVENT-CONNECTED" eq_refl).
    unfold priorityDigit. tauto.
  - apply (proj2 (route_classifies_datagram "<9>x")).
    intros (d & rest & Heq & Hd). injection Heq as <- _.
    unfold priorityDigit in Hd. intuition discriminate.
  - apply (proj2 (route_classifies_datagram "OK")).
    intros (d & rest & Heq & Hd). discriminate Heq.
Defined.

(** ** The command executor *)

Lemma compare_refl s : String.compare s s = Eq.
Proof.
  induction s as [|a s IH]; [reflexivity|]. cbn [String.compare].
  unfold Ascii.compare. now rewrite N.compare_refl.
Qed.

Lemma Compare_zero a b : (Compare a b =? 0) = true <-> a = b.
Proof.
  unfold Compare. split.
  - destruct (String.compare a b) eqn:E; [|discriminate..].
    intros _. now apply String.compare_eq_iff.
  - intros ->. now rewrite compare_refl.
Qed.

(** C5.  [runCommand] answers [nil] exactly when [cmd] answers no error
    and the reply is the line OK with its newline; an error of [cmd]
    (a failed write, an error message from the read loop, the timeout)
    is handed on unchanged; any other reply becomes a [ParseError] whose
    [Line] is the reply. *)
Theorem runCommand_requires_OK
    (Write : string -> error) (await : string -> awaited) (command : string) :
  let resp := fst (cmd Write await command) in
  let e := snd (cmd Write await command) in
  (runCommand Write await command = Nil <-> e = Nil /\ resp = "OK" +:+ LF)
  /\ (e <> Nil -> runCommand Write await command = e)
  /\ (e = Nil -> resp <> "OK" +:+ LF ->
      runCommand Write await command = ParseError resp Nil).
Proof.
  unfold runCommand. destruct (cmd Write await command) as [resp e]. cbn [fst snd].
  destruct (Compare resp ("OK" +:+ LF) =? 0) eqn:Hc.
  - apply Compare_zero in Hc. subst resp.
    destruct e; (split; [|split]); try congruence; intuition congruence.
  - assert (Hne : resp <> "OK" +:+ LF).
    { intros ->. rewrite (proj2 (Compare_zero _ _) eq_refl) in Hc. discriminate. }
    destruct e; (split; [|split]); try congruence; intuition congruence.
Qed.

Lemma runCommand_requires_OK_witness :
  runCommand (fun _ => Nil) (fun _ => Received (Message 2 ("OK" +:+ LF) Nil)) "SCAN" = Nil
  /\ runCommand (fun _ => Nil) (fun _ => TimedOut) "SCAN"
     = errorString "Timed out waiting for response"
  /\ runCommand (fun _ => Errno 32) (fun _ => TimedOut) "SCAN" = Errno 32
  /\ runCommand (fun _ => Nil) (fun _ => Received (Message 2 ("FAIL" +:+ LF) Nil)) "SCAN"
     = ParseError ("FAIL" +:+ LF) Nil.
Proof.
  split; [|split; [|split]].
  - apply (proj1 (runCommand_requires_OK (fun _ => Nil)
      (fun _ => Received (Message 2 ("OK" +:+ LF) Nil)) "SCAN")).
    split; reflexivity.
  - apply (proj1 (proj2 (runCommand_requires_OK (fun _ => Nil) (fun _ => TimedOut) "SCAN"))).
    discriminate.
  - apply (proj1 (proj2 (runCommand_requires_OK (fun _ => Errno 32) (fun _ => TimedOut) "SCAN"))).
    discriminate.
  - apply (proj2 (proj2 (runCommand_requires_OK (fun _ => Nil)
      (fun _ => Received (Message 2 ("FAIL" +:+ LF) Nil)) "SCAN"))).
    + reflexivity.
    + discriminate.
Defined.

(** ** [Split] on a separator of one byte *)

Lemma prefix_nil s : String.prefix EmptyString s = true.
Proof. destruct s; reflexivity. Qed.

Lemma prefix_char c a s :
  String.prefix (String c EmptyString) (String a s) = Ascii.eqb a c.
Proof.
  cbn [String.prefix]. rewrite prefix_nil.
  destruct (ascii_dec c a) as [-> | Hne].
  - now rewrite Ascii.eqb_refl.
  - symmetry. apply Ascii.eqb_neq. congruence.
Qed.

Lemma splitFrom_char c s : forall cur,
  splitFrom (String c EmptyString) 0 cur s =
  match cut c s with
  | None => [cur +:+ s]
  | Some (x, y) => (cur +:+ x) :: splitFrom (String c EmptyString) 0 EmptyString y
  end.
Proof.
  induction s as [|a s IH]; intros cur.
  - cbn. now rewrite append_nil_r.
  - cbn [splitFrom cut]. rewrite prefix_char.
    destruct (Ascii.eqb a c).
    + cbn [String.length Nat.sub]. now rewrite append_nil_r.
    + rewrite IH. destruct (cut c s) as [[x y]|].
      * now rewrite append_assoc.
      * now rewrite append_assoc.
Qed.

Lemma cut_None c s : cut c s = None <-> mentions c s = false.
Proof.
  induction s as [|a s IH]; cbn [cut mentions]; [tauto|].
  destruct (Ascii.eqb a c); cbn [orb]; [split; discriminate|].
  destruct (cut c s) as [[x y]|]; [|tauto].
  split; [discriminate|]. intros H. apply IH in H. discriminate.
Qed.

Lemma cut_Some_split c s : forall x y,
  cut c s = Some (x, y) -> s = x +:+ String c y /\ mentions c x = false.
Proof.
  induction s as [|a s IH]; intros x y; cbn [cut]; [discriminate|].
  destruct (Ascii.eqb_spec a c) as [-> | Hne].
  - intros [= <- <-]. split; reflexivity.
  - destruct (cut c s) as [[x' y']|]; [|discriminate].
    intros [= <- <-]. destruct (IH x' y' eq_refl) as [-> Hx].
    split; [reflexivity|]. cbn [mentions]. rewrite Hx.
    apply Ascii.eqb_neq in Hne. now rewrite Hne.
Qed.

Lemma cut_append c x y :
  mentions c x = false -> cut c (x +:+ String c y) = Some (x, y).
Proof.
  induction x as [|a x IH]; intros Hx.
  - rewrite append_nil_l. cbn [cut]. now rewrite Ascii.eqb_refl.
  - rewrite append_cons. cbn [cut]. cbn [mentions] in Hx.
    apply orb_false_iff in Hx as [Ha Hx]. now rewrite Ha, (IH Hx).
Qed.

Lemma cut_Some c s x y :
  cut c s = Some (x, y) <->
  s = x +:+ String c y /\ mentions c x = false.
Proof.
  split; [apply cut_Some_split|]. intros [-> Hx]. now apply cut_append.
Qed.

Lemma Split_char_two c t k v :
  Split t (String c EmptyString) = [k; v] <->
  cut c t = Some (k, v) /\ mentions c v = false.
Proof.
  unfold Split. rewrite splitFrom_char.
  destruct (cut c t) as [[x y]|].
  - rewrite splitFrom_char, append_nil_l.
    destruct (cut c y) as [[x' y']|] eqn:E.
    + split.
      * intros H. injection H as _ _ H. rewrite splitFrom_char in H.
        destruct (cut c y') as [[? ?]|]; discriminate.
      * intros [[= -> ->] H]. apply cut_None in H. congruence.
    + rewrite append_nil_l. apply cut_None in E. split.
      * now intros [= -> ->].
      * now intros [[= -> ->] _].
  - split; [discriminate | intros [? _]; discriminate].
Qed.

Lemma Split_char_length_two c t :
  length (Split t (String c EmptyString)) = 2%nat ->
  exists k v, Split t (String c EmptyString) = [k; v].
Proof.
  destruct (Split t _) as [|k [|v [|]]]; try discriminate. eauto.
Qed.

Lemma keyValue_Split t k v :
  keyValue t = Some (k, v) <-> Split t "=" = [k; v].
Proof.
  rewrite (Split_char_two "=" t k v). unfold keyValue.
  destruct (cut "=" t) as [[x y]|]; [|split; [discriminate | intros [? _]; discriminate]].
  destruct (mentions "=" y) eqn:E.
  - split; [discriminate|]. intros [[= -> ->] H]. congruence.
  - split.
    + intros [= -> ->]. now split.
    + now intros [[= -> ->] _].
Qed.

Lemma keyValue_None t :
  keyValue t = None <-> length (Split t "=") <> 2%nat.
Proof.
  split.
  - intros H Hl. apply Split_char_length_two in Hl as (k & v & Hs).
    apply keyValue_Split in Hs. congruence.
  - intros H. destruct (keyValue t) as [[k v]|] eqn:E; [|reflexivity].
    apply keyValue_Split in E. rewrite E in H. now contradiction H.
Qed.

(** A token has a key and a value exactly when it is the key, one '='
    and the value, with no other '='. *)
Lemma keyValue_spec t k v :
  keyValue t = Some (k, v) <->
  t = k +:+ "=" +:+ v /\ mentions "=" k = false /\ mentions "=" v = false.
Proof.
  rewrite keyValue_Split, (Split_char_two "=" t k v), cut_Some. tauto.
Qed.

Lemma indexFrom_char_absent c s : forall i,
  mentions c s = false -> indexFrom (String c EmptyString) s i = -1.
Proof.
  induction s as [|a s IH]; intros i H; [reflexivity|].
  cbn [mentions] in H. apply orb_false_iff in H as [Ha H].
  cbn [indexFrom]. rewrite prefix_char, Ha. now apply IH.
Qed.

Lemma indexFrom_char_present c s : forall i,
  mentions c s = true -> 0 <= i -> 0 <= indexFrom (String c EmptyString) s i.
Proof.
  induction s as [|a s IH]; intros i H Hi; [discriminate H|].
  cbn [indexFrom]. rewrite prefix_char. cbn [mentions] in H.
  destruct (Ascii.eqb a c); [exact Hi|]. cbn [orb] in H. apply IH; [exact H | lia].
Qed.

Lemma Contains_char c s : Contains s (String c EmptyString) = mentions c s.
Proof.
  unfold Contains, Index. destruct (mentions c s) eqn:E.
  - apply Z.leb_le. now apply indexFrom_char_present.
  - now rewrite indexFrom_char_absent.
Qed.

(** ** The event decoder *)

Lemma index_lookup {A} (l : list A) (n : nat) (x : A) :
  l !! n = Some x -> index l (Z.of_nat n) = Returns x.
Proof.
  intros H. unfold index. rewrite Nat2Z.id, H.
  apply lookup_lt_Some in H.
  destruct (Z.leb_spec 0 (Z.of_nat n)), (Z.ltb_spec (Z.of_nat n) (Z.of_nat (length l)));
    try lia. reflexivity.
Qed.

Lemma index_beyond {A} (l : list A) (i : Z) :
  Z.of_nat (length l) <= i ->
  index l i = Panics (IndexOutOfRange i (Z.of_nat (length l))).
Proof.
  intros H. unfold index.
  destruct (Z.ltb_spec i (Z.of_nat (length l))); [lia|].
  now rewrite andb_false_r.
Qed.

Lemma prefix_append p t : String.prefix p (p +:+ t) = true.
Proof.
  induction p as [|a p IH]; [apply prefix_nil|].
  rewrite append_cons. cbn [String.prefix].
  destruct (ascii_dec a a); [exact IH | congruence].
Qed.

Lemma substring_append_skip p t :
  substring (String.length p) (String.length (p +:+ t) - String.length p) (p +:+ t) = t.
Proof.
  induction p as [|a p IH].
  - rewrite append_nil_l. cbn [String.length]. rewrite Nat.sub_0_r.
    apply substring_all.
  - rewrite append_cons. cbn [String.length substring Nat.sub]. exact IH.
Qed.

Lemma TrimPrefix_append p t : TrimPrefix (p +:+ t) p = t.
Proof.
  unfold TrimPrefix, HasPrefix. rewrite prefix_append. apply substring_append_skip.
Qed.

Lemma TrimPrefix_absent s p : HasPrefix s p = false -> TrimPrefix s p = s.
Proof. unfold TrimPrefix. now intros ->. Qed.

Lemma indexFrom_lower sub s : forall i,
  indexFrom sub s i = -1 \/ i <= indexFrom sub s i.
Proof.
  induction s as [|a s IH]; intros i; cbn [indexFrom].
  - destruct (String.prefix sub EmptyString); [right; lia | now left].
  - destruct (String.prefix sub (String a s)); [right; lia|].
    destruct (IH (i + 1)) as [H | H]; [now left | right; lia].
Qed.

Lemma Index_zero s sub : (Index s sub =? 0) = HasPrefix s sub.
Proof.
  unfold Index, HasPrefix. destruct s as [|a s]; cbn [indexFrom].
  - destruct (String.prefix sub EmptyString); reflexivity.
  - destruct (String.prefix sub (String a s)); [reflexivity|].
    destruct (indexFrom_lower sub s (0 + 1)) as [-> | H]; [reflexivity|].
    apply Z.eqb_neq. lia.
Qed.

(** The loop over the tokens inserts the key and the value of every
    token that has them, in order, and passes over the others. *)
Lemma arguments_inserts tokens : forall m,
  arguments tokens m = Returns (argumentsOf tokens m).
Proof.
  unfold argumentsOf.
  induction tokens as [|t tokens IH]; intros m; [reflexivity|].
  cbn [arguments fold_left]. change "=" with (String "=" EmptyString) at 1.
  rewrite Contains_char.
  destruct (keyValue t) as [[k v]|] eqn:E.
  - pose proof E as Hs. apply keyValue_Split in Hs.
    apply keyValue_spec in E as (-> & Hk & Hv).
    assert (Hm : mentions "=" (k +:+ "=" +:+ v) = true).
    { clear. induction k as [|a k IH]; cbn; [reflexivity|].
      rewrite append_cons. cbn [mentions]. rewrite IH. apply orb_true_r. }
    rewrite Hm, Hs. cbn. apply IH.
  - apply keyValue_None in E.
    destruct (mentions "=" t); [|apply IH].
    destruct (Z.eqb_spec (Z.of_nat (length (Split t "="))) 2) as [H | H]; [lia|].
    cbn [negb]. apply IH.
Qed.

Lemma decodeEvent_structured (mgs : message) (p0 : string) (rest : list string) :
  Split (data mgs) " " = p0 :: rest ->
  HasPrefix p0 "CTRL-" = true ->
  decodeEvent mgs =
  Returns (Some (mkWPAEvent
    (if wrongKey (p0 :: rest) then "BAD-PASSPHRASE" else TrimPrefix p0 "CTRL-EVENT-")
    (argumentsOf rest ∅) (data mgs))).
Proof.
  intros Hs Hp. unfold decodeEvent. rewrite Hs.
  destruct (Z.eqb_spec (Z.of_nat (length (p0 :: rest))) 0) as [H | _];
    [cbn [length] in H; lia|].
  pose proof (index_lookup (p0 :: rest) 0 p0 eq_refl) as H0.
  change (Z.of_nat 0) with 0 in H0. rewrite H0. cbn [bind].
  rewrite Index_zero, Hp. cbn [negb tail1 bind].
  rewrite arguments_inserts. cbn [bind].
  unfold wrongKey. destruct ((p0 :: rest) !! 5%nat) as [p5|] eqn:E5.
  - pose proof (lookup_lt_Some _ _ _ E5) as Hl.
    destruct (Z.leb_spec 6 (Z.of_nat (length (p0 :: rest)))) as [_ | H]; [|lia].
    pose proof (index_lookup (p0 :: rest) 5 p5 E5) as H5.
    change (Z.of_nat 5) with 5 in H5. rewrite H5. reflexivity.
  - apply lookup_ge_None in E5.
    destruct (Z.leb_spec 6 (Z.of_nat (length (p0 :: rest)))) as [H | _]; [lia|].
    reflexivity.
Qed.

(** C8.  A payload whose first token starts with the event prefix is
    decoded into an event that carries the whole payload as its [Line];
    its name is BAD-PASSPHRASE when the sixth token is reason=WRONG_KEY,
    and otherwise the first token without the prefix CTRL-EVENT- (the
    first token itself when it does not start with it). *)
Theorem decodeEvent_names_the_event (mgs : message) (p0 : string) (rest : list string) :
  Split (data mgs) " " = p0 :: rest ->
  HasPrefix p0 "CTRL-" = true ->
  exists e,
    decodeEvent mgs = Returns (Some e) /\
    Line e = data mgs /\
    ((p0 :: rest) !! 5%nat = Some "reason=WRONG_KEY" -> Event e = "BAD-PASSPHRASE") /\
    ((p0 :: rest) !! 5%nat <> Some "reason=WRONG_KEY" ->
       Event e = TrimPrefix p0 "CTRL-EVENT-" /\
       (forall t, p0 = "CTRL-EVENT-" +:+ t -> Event e = t) /\
       (HasPrefix p0 "CTRL-EVENT-" = false -> Event e = p0)).
Proof.
  intros Hs Hp. eexists. split; [exact (decodeEvent_structured mgs p0 rest Hs Hp)|].
  cbn [Line Event]. split; [reflexivity|]. unfold wrongKey. split.
  - intros ->. reflexivity.
  - intros Hne.
    assert (Hw : match (p0 :: rest) !! 5%nat with
                 | Some p5 => String.eqb p5 "reason=WRONG_KEY"
                 | None => false
                 end = false).
    { destruct ((p0 :: rest) !! 5%nat) as [p5|]; [|reflexivity].
      apply String.eqb_neq. congruence. }
    rewrite Hw. split; [reflexivity|]. split.
    + intros t ->. apply TrimPrefix_append.
    + apply TrimPrefix_absent.
Qed.

Lemma decodeEvent_names_the_event_witness :
  (exists e,
     decodeEvent (Message 3
       "CTRL-EVENT-SSID-TEMP-DISABLED id=0 ssid=x auth_failures=1 duration=10 reason=WRONG_KEY"
       Nil) = Returns (Some e) /\ Event e = "BAD-PASSPHRASE")
  /\ (exists e,
     decodeEvent (Message 3
       "CTRL-EVENT-CONNECTED - Connection to 00:11:22:33:44:55 completed" Nil)
     = Returns (Some e) /\ Event e = "CONNECTED").
Proof.
  split.
  - destruct (decodeEvent_names_the_event
      (Message 3
         "CTRL-EVENT-SSID-TEMP-DISABLED id=0 ssid=x auth_failures=1 duration=10 reason=WRONG_KEY"
         Nil)
      "CTRL-EVENT-SSID-TEMP-DISABLED"
      ["id=0"; "ssid=x"; "auth_failures=1"; "duration=10"; "reason=WRONG_KEY"]
      eq_refl eq_refl) as (e & He & _ & Hbad & _).
    exists e. split; [exact He | exact (Hbad eq_refl)].
  - destruct (decodeEvent_names_the_event
      (Message 3 "CTRL-EVENT-CONNECTED - Connection to 00:11:22:33:44:55 completed" Nil)
      "CTRL-EVENT-CONNECTED"
      ["-"; "Connection"; "to"; "00:11:22:33:44:55"; "completed"]
      eq_refl eq_refl) as (e & He & _ & _ & Hname).
    exists e. split; [exact He|].
    refine (proj1 (proj2 (Hname _)) "CONNECTED" eq_refl). discriminate.
Defined.

Lemma argumentsOf_cons t tokens m :
  argumentsOf (t :: tokens) m =
  argumentsOf tokens (match keyValue t with
                      | Some (k, v) => <[k := v]> m
                      | None => m
                      end).
Proof. reflexivity. Qed.

Lemma argumentsOf_keeps tokens : forall (m : gmap string string) k,
  is_Some (m !! k) -> is_Some (argumentsOf tokens m !! k).
Proof.
  induction tokens as [|t tokens IH]; intros m k Hk; [exact Hk|].
  rewrite argumentsOf_cons. apply IH.
  destruct (keyValue t) as [[k0 v0]|]; [|exact Hk].
  destruct (decide (k0 = k)) as [-> | Hne].
  - rewrite lookup_insert_eq. eauto.
  - now rewrite lookup_insert_ne.
Qed.

Lemma argumentsOf_key tokens : forall (m : gmap string string) t k v,
  t ∈ tokens -> keyValue t = Some (k, v) ->
  is_Some (argumentsOf tokens m !! k).
Proof.
  induction tokens as [|t0 tokens IH]; intros m t k v Hin Hkv.
  - inversion Hin.
  - rewrite argumentsOf_cons. apply elem_of_cons in Hin as [<- | Hin].
    + rewrite Hkv. apply argumentsOf_keeps. rewrite lookup_insert_eq. eauto.
    + eapply IH; eauto.
Qed.

(** The value under a key is the value of the last token with that key,
    or the value the map had when no token has the key. *)
Lemma argumentsOf_lookup tokens : forall (m : gmap string string) k v,
  argumentsOf tokens m !! k = Some v <->
  (exists pre t post,
      tokens = pre ++ t :: post /\ keyValue t = Some (k, v) /\
      forall t' v', t' ∈ post -> keyValue t' <> Some (k, v'))
  \/ (m !! k = Some v /\ forall t' v', t' ∈ tokens -> keyValue t' <> Some (k, v')).
Proof.
  induction tokens as [|t0 tokens IH]; intros m k v.
  - cbn. split.
    + intros H. right. split; [exact H|]. intros t' v' Hin. inversion Hin.
    + intros [(pre & t & post & H & _) | [H _]]; [|exact H].
      destruct pre; discriminate H.
  - rewrite argumentsOf_cons, IH. split.
    + intros [(pre & t & post & -> & Hkv & Hpost) | [Hm Hnone]].
      * left. exists (t0 :: pre), t, post. auto.
      * destruct (keyValue t0) as [[k0 v0]|] eqn:E0.
        -- destruct (decide (k0 = k)) as [-> | Hne].
           ++ rewrite lookup_insert_eq in Hm. injection Hm as ->.
              left. exists [], t0, tokens. auto.
           ++ rewrite lookup_insert_ne in Hm by exact Hne.
              right. split; [exact Hm|]. intros t' v' Hin.
              apply elem_of_cons in Hin as [-> | Hin]; [|now apply Hnone].
              rewrite E0. congruence.
        -- right. split; [exact Hm|]. intros t' v' Hin.
           apply elem_of_cons in Hin as [-> | Hin]; [|now apply Hnone].
           rewrite E0. discriminate.
    + intros [(pre & t & post & Heq & Hkv & Hpost) | [Hm Hnone]].
      * destruct pre as [|t1 pre]; cbn in Heq; injection Heq as -> ->.
        -- right. rewrite Hkv, lookup_insert_eq. auto.
        -- left. exists pre, t, post. auto.
      * right. assert (H0 : forall v', keyValue t0 <> Some (k, v')).
        { intros v'. apply Hnone. apply elem_of_cons. now left. }
        split.
        -- destruct (keyValue t0) as [[k0 v0]|]; [|exact Hm].
           rewrite lookup_insert_ne; [exact Hm|]. intros ->. now apply (H0 v0).
        -- intros t' v' Hin. apply Hnone. apply elem_of_cons. now right.
Qed.

(** C9, as the code has it.  In a structured event, a token after the
    first with exactly one '=' gives [Arguments] an entry under the text
    before the '=', and the value found under a key is the text after
    the '=' of the last such token with that key; a token with no '=' or
    with more than one gives no entry. *)
Theorem decodeEvent_arguments (mgs : message) (p0 : string) (rest : list string) :
  Split (data mgs) " " = p0 :: rest ->
  HasPrefix p0 "CTRL-" = true ->
  exists e,
    decodeEvent mgs = Returns (Some e) /\
    (forall k v,
        (k +:+ "=" +:+ v) ∈ rest ->
        mentions "=" k = false -> mentions "=" v = false ->
        is_Some (Arguments e !! k)) /\
    (forall k v,
        Arguments e !! k = Some v <->
        exists pre post,
          rest = pre ++ (k +:+ "=" +:+ v) :: post /\
          mentions "=" k = false /\ mentions "=" v = false /\
          forall v', mentions "=" v' = false -> (k +:+ "=" +:+ v') ∉ post).
Proof.
  intros Hs Hp. eexists. split; [exact (decodeEvent_structured mgs p0 rest Hs Hp)|].
  cbn [Arguments]. split.
  - intros k v Hin Hk Hv. eapply argumentsOf_key; [exact Hin|].
    apply keyValue_spec. auto.
  - intros k v. rewrite argumentsOf_lookup. split.
    + intros [(pre & t & post & -> & Hkv & Hpost) | [Hm _]].
      * apply keyValue_spec in Hkv as (-> & Hk & Hv).
        exists pre, post. repeat (split; [assumption || reflexivity|]).
        intros v' Hv' Hin. apply (Hpost _ v' Hin). apply keyValue_spec. auto.
      * rewrite lookup_empty in Hm. discriminate.
    + intros (pre & post & -> & Hk & Hv & Hpost). left.
      exists pre, (k +:+ "=" +:+ v), post. split; [reflexivity|].
      split; [apply keyValue_spec; auto|].
      intros t' v' Hin Hkv. apply keyValue_spec in Hkv as (-> & _ & Hv').
      exact (Hpost v' Hv' Hin).
Qed.

Lemma decodeEvent_arguments_witness :
  exists e,
    decodeEvent (Message 3 "CTRL-EVENT-DISCONNECTED bssid=00:11:22:33:44:55 reason=3 locally_generated=1 reason=4" Nil)
    = Returns (Some e) /\
    Arguments e !! "reason" = Some "4" /\
    is_Some (Arguments e !! "bssid").
Proof.
  destruct (decodeEvent_arguments
    (Message 3 "CTRL-EVENT-DISCONNECTED bssid=00:11:22:33:44:55 reason=3 locally_generated=1 reason=4" Nil)
    "CTRL-EVENT-DISCONNECTED"
    ["bssid=00:11:22:33:44:55"; "reason=3"; "locally_generated=1"; "reason=4"]
    eq_refl eq_refl) as (e & He & Hkey & Hval).
  exists e. split; [exact He|]. split.
  - apply Hval. exists ["bssid=00:11:22:33:44:55"; "reason=3"; "locally_generated=1"], [].
    split; [reflexivity|]. split; [reflexivity|]. split; [reflexivity|].
    intros v' _ Hin. inversion Hin.
  - apply (Hkey "bssid" "00:11:22:33:44:55"); [|reflexivity..].
    apply elem_of_cons. left. reflexivity.
Defined.

(** C9 as it is worded fails: the token a=b=c contains '=', the text
    before its first '=' is a and the text after it is b=c, and the
    event has no argument under a. *)
Lemma decodeEvent_arguments_counterexample :
  let line := "CTRL-EVENT-EAP-STATUS a=b=c" in
  Split line " " = ["CTRL-EVENT-EAP-STATUS"; "a=b=c"] /\
  Contains "a=b=c" "=" = true /\
  cut "=" "a=b=c" = Some ("a", "b=c") /\
  exists e,
    decodeEvent (Message 3 line Nil) = Returns (Some e) /\
    Arguments e !! "a" = None /\ Arguments e = ∅.
Proof.
  cbv zeta. split; [reflexivity|]. split; [reflexivity|]. split; [reflexivity|].
  eexists. split; [vm_compute; reflexivity|]. split; reflexivity.
Qed.

(** ** [parseStatusResults] *)

Lemma Status_line res ln :
  Status.line res ln =
  Returns (match keyValue ln with
           | Some (k, v) => Status.assign res k v
           | None => res
           end).
Proof.
  unfold Status.line. destruct (keyValue ln) as [[k v]|] eqn:E.
  - apply keyValue_Split in E. rewrite E. reflexivity.
  - apply keyValue_None in E.
    destruct (Z.eqb_spec (Z.of_nat (length (Split ln "="))) 2) as [H | H]; [lia|].
    reflexivity.
Qed.

Lemma Status_lines lns : forall res,
  exists res',
    Status.lines res lns = Returns res' /\
    statusResult.wpaState res' = reported "wpa_state" lns (statusResult.wpaState res) /\
    statusResult.keyMgmt res' = reported "key_mgmt" lns (statusResult.keyMgmt res) /\
    statusResult.ipAddr res' = reported "ip_address" lns (statusResult.ipAddr res) /\
    statusResult.ssid res' = reported "ssid" lns (statusResult.ssid res) /\
    statusResult.address res' = reported "address" lns (statusResult.address res) /\
    statusResult.bssid res' = reported "bssid" lns (statusResult.bssid res) /\
    statusResult.frequency res' = reported "freq" lns (statusResult.frequency res) /\
    statusResult.idStr res' = reported "id_str" lns (statusResult.idStr res).
Proof.
  induction lns as [|ln lns IH]; intros res.
  - exists res. repeat split.
  - cbn [Status.lines]. rewrite Status_line. cbn [bind].
    destruct (IH (match keyValue ln with
                  | Some (k, v) => Status.assign res k v
                  | None => res
                  end)) as (res' & Hrun & Hf).
    exists res'. split; [exact Hrun|].
    unfold reported in *. cbn [fold_left].
    destruct (keyValue ln) as [[k v]|]; [|exact Hf].
    unfold Status.assign in Hf.
    destruct (String.eqb_spec k "wpa_state") as [-> | ?]; [exact Hf|].
    destruct (String.eqb_spec k "key_mgmt") as [-> | ?]; [exact Hf|].
    destruct (String.eqb_spec k "ip_address") as [-> | ?]; [exact Hf|].
    destruct (String.eqb_spec k "ssid") as [-> | ?]; [exact Hf|].
    destruct (String.eqb_spec k "address") as [-> | ?]; [exact Hf|].
    destruct (String.eqb_spec k "bssid") as [-> | ?]; [exact Hf|].
    destruct (String.eqb_spec k "freq") as [-> | ?]; [exact Hf|].
    destruct (String.eqb_spec k "id_str") as [-> | ?]; [exact Hf|].
    exact Hf.
Qed.

(** C10.  [parseStatusResults] returns a result and a [nil] error for
    every input.  Each field holds what the response reports under the
    field's key: the value of the last line made of that key, one '=' and
    a value, so lines that do not split in two at '=' and lines with
    another key leave it alone; an empty input leaves every field empty. *)
Theorem parseStatusResults_never_fails (resp : string) :
  (exists res,
     parseStatusResults resp = Returns (res, Nil) /\
     statusResult.wpaState res = reported "wpa_state" (ScanLines resp) "" /\
     statusResult.keyMgmt res = reported "key_mgmt" (ScanLines resp) "" /\
     statusResult.ipAddr res = reported "ip_address" (ScanLines resp) "" /\
     statusResult.ssid res = reported "ssid" (ScanLines resp) "" /\
     statusResult.address res = reported "address" (ScanLines resp) "" /\
     statusResult.bssid res = reported "bssid" (ScanLines resp) "" /\
     statusResult.frequency res = reported "freq" (ScanLines resp) "" /\
     statusResult.idStr res = reported "id_str" (ScanLines resp) "")
  /\ parseStatusResults "" = Returns (statusResult.zero, Nil).
Proof.
  split; [|reflexivity].
  destruct (Status_lines (ScanLines resp) statusResult.zero) as (res & Hrun & Hf).
  exists res. unfold parseStatusResults. rewrite Hrun. split; [reflexivity | exact Hf].
Qed.

(** ** The wire codec *)

Lemma settles_Returns {A} (a : A) : settles (Returns a).
Proof. discriminate. Qed.

Lemma settles_bind {A B} (m : outcome A) (k : A -> outcome B) :
  settles m -> (forall a, settles (k a)) -> settles (bind m k).
Proof. intros Hm Hk. destruct m as [a| |]; [apply Hk | discriminate | contradiction]. Qed.

Lemma settles_byteAt s i : settles (byteAt s i).
Proof.
  unfold byteAt. destruct (_ && _); [|discriminate].
  destruct (String.get _ s); discriminate.
Qed.

Lemma settles_slice s lo hi : settles (slice s lo hi).
Proof. unfold slice. destruct (_ && _); discriminate. Qed.

Lemma settles_if {A} (b : bool) (m1 m2 : outcome A) :
  settles m1 -> settles m2 -> settles (if b then m1 else m2).
Proof. destruct b; auto. Qed.

Create HintDb settle.
#[local] Hint Resolve settles_Returns settles_byteAt settles_slice : settle.

Lemma decodeLoop_settles fuel : forall input idx result,
  len input - idx <= Z.of_nat fuel -> settles (decodeLoop fuel input idx result).
Proof.
  induction fuel as [|fuel IH]; intros input idx result Hf.
  - cbn [decodeLoop]. destruct (Z.ltb_spec idx (len input)); [lia | discriminate].
  - cbn [decodeLoop]. destruct (Z.ltb_spec idx (len input)); [|discriminate].
    apply settles_bind.
    { apply settles_if; [apply settles_bind|]; auto with settle. }
    intros [|].
    + apply settles_bind; [auto with settle|]. intros s. apply IH. lia.
    + apply settles_bind.
      { apply settles_if; [|auto with settle].
        apply settles_bind; [auto with settle|]. intros b0.
        apply settles_if; [apply settles_bind|]; auto with settle. }
      intros [|].
      * apply settles_bind; [auto with settle|]. intros s. apply IH. lia.
      * apply settles_bind; [auto with settle|]. intros b. apply IH. lia.
Qed.

(** The fuel [decodeByteLiteralString] starts its loop with is enough:
    the loop ends on every input. *)
Lemma decodeByteLiteralString_total input : settles (decodeByteLiteralString input).
Proof. apply decodeLoop_settles. unfold len. lia. Qed.

(** C2.  The parsers do not all end normally on every input: a lone
    backslash or a cut-off hexadecimal escape at the end of its input
    makes [decodeByteLiteralString] read past the end, and a data row
    with exactly as many fields as the highest column index passes the
    length check of [parseScanResults] and of [parseListNetworksResult]
    and is then read at that index. *)
Theorem parsers_panic_on_malformed_input :
  decodeByteLiteralString BACKSLASH = Panics (IndexOutOfRange 1 1)
  /\ decodeByteLiteralString "ab\x4" = Panics (SliceOutOfRange 4 6 5)
  /\ parseScanResults ("bssid / frequency" +:+ LF +:+ "00:11:22:33:44:55" +:+ LF)
     = Panics (IndexOutOfRange 1 1)
  /\ parseListNetworksResult ("network id / ssid" +:+ LF +:+ "0" +:+ LF)
     = Panics (IndexOutOfRange 1 1).
Proof. repeat split; vm_compute; reflexivity. Qed.

(** C4.  The round trip fails for a byte sequence that ends in a
    backslash: its encoding ends in two backslashes, which the test for
    a pair of backslashes does not reach at the end of the input, and
    the decoder reads past the end where a single backslash is due. *)
Theorem roundtrip_fails_on_final_backslash :
  encodeByteLiteral BACKSLASH = BACKSLASH +:+ BACKSLASH
  /\ decodeByteLiteralString (encodeByteLiteral BACKSLASH)
     = Panics (IndexOutOfRange 2 2)
  /\ decodeByteLiteralString (encodeByteLiteral ("net" +:+ BACKSLASH))
     = Panics (IndexOutOfRange 5 5)
  /\ decodeByteLiteralString (encodeByteLiteral (BACKSLASH +:+ "net"))
     = Returns (BACKSLASH +:+ "net").
Proof. repeat split; vm_compute; reflexivity. Qed.

(** ** Malformed rows *)

(** C7.  [parseListNetworksResult] does not always reach the first row
    with fewer fields than the highest column index: here the row
    before it has exactly that many fields, passes the length check and
    is read at that index, so the parse panics instead of answering the
    [ParseError] of the row after. *)
Theorem parseListNetworksResult_panics_before_short_row :
  let resp := "network id / ssid / bssid" +:+ LF
              +:+ "0" +:+ TAB +:+ "home" +:+ LF
              +:+ "1" +:+ LF in
  ScanLines resp = ["network id / ssid / bssid"; "0" +:+ TAB +:+ "home"; "1"]
  /\ Networks.maxCol (Networks.header (Split "network id / ssid / bssid" " / ") 0 Networks.init) = 2
  /\ Split ("0" +:+ TAB +:+ "home") TAB = ["0"; "home"]
  /\ Split "1" TAB = ["1"]
  /\ parseListNetworksResult resp = Panics (IndexOutOfRange 2 2)
  /\ parseListNetworksResult ("network id / ssid / bssid" +:+ LF +:+ "1" +:+ LF)
     = Returns ([], ParseError "1" Nil).
Proof. cbv zeta. repeat split; vm_compute; reflexivity. Qed.

(** C6.  [parseScanResults] does not account for every row: a row with
    exactly as many fields as the highest column index passes the length
    check and is read at that index, and a name that ends in a backslash
    is decoded past its end; either way the parse panics and the records
    and errors of the other rows are lost.  Without such a row the
    records and the errors come out row by row. *)
Theorem parseScanResults_panics_on_accepted_row :
  let hdr := "bssid / frequency / signal level / flags / ssid" in
  let good := "00:11:22:33:44:55" +:+ TAB +:+ "2412" +:+ TAB +:+ "-40"
              +:+ TAB +:+ "[WPA2-PSK-CCMP][ESS]" +:+ TAB +:+ "MyNetwork" in
  let four := "00:11:22:33:44:55" +:+ TAB +:+ "2412" +:+ TAB +:+ "-40"
              +:+ TAB +:+ "[ESS]" in
  let slash := "00:11:22:33:44:55" +:+ TAB +:+ "2412" +:+ TAB +:+ "-40"
               +:+ TAB +:+ "[ESS]" +:+ TAB +:+ "net" +:+ BACKSLASH in
  Scan.maxCol (Scan.header (Split hdr " / ") 0 Scan.init) = 4
  /\ length (Split four TAB) = 4%nat
  /\ parseScanResults (hdr +:+ LF +:+ good +:+ LF +:+ four +:+ LF +:+ "zz" +:+ LF)
     = Panics (IndexOutOfRange 4 4)
  /\ parseScanResults (hdr +:+ LF +:+ good +:+ LF +:+ slash +:+ LF)
     = Panics (IndexOutOfRange 4 4)
  /\ parseScanResults (hdr +:+ LF +:+ good +:+ LF +:+ "zz" +:+ LF)
     = Returns ([scanResult.mk (fst (ParseMAC "00:11:22:33:44:55")) 2412 (-40)
                   ["WPA2-PSK-CCMP"; "ESS"] "MyNetwork"],
                [ParseError "zz" Nil]).
Proof. cbv zeta. repeat split; vm_compute; reflexivity. Qed.

(** ** Column order *)

Lemma lastIndex_absent name columns : forall n acc,
  name ∉ columns -> lastIndex name columns n acc = acc.
Proof.
  induction columns as [|col rest IH]; intros n acc Hn; [reflexivity|].
  cbn [lastIndex]. apply not_elem_of_cons in Hn as [Hne Hn].
  rewrite (IH _ _ Hn). destruct (String.eqb_spec col name); congruence.
Qed.

Lemma lastIndex_lookup name columns : forall n acc i,
  NoDup columns -> columns !! i = Some name ->
  lastIndex name columns n acc = n + Z.of_nat i.
Proof.
  induction columns as [|col rest IH]; intros n acc i Hnd Hi; [discriminate|].
  apply NoDup_cons in Hnd as [Hnotin Hnd]. cbn [lastIndex].
  destruct i as [|i]; cbn in Hi.
  - injection Hi as ->. rewrite String.eqb_refl, lastIndex_absent by exact Hnotin. lia.
  - rewrite (IH _ _ i Hnd Hi). lia.
Qed.

Lemma lastIndex_range name columns : forall n acc,
  lastIndex name columns n acc = acc \/
  n <= lastIndex name columns n acc < n + Z.of_nat (length columns).
Proof.
  induction columns as [|col rest IH]; intros n acc; [now left|].
  cbn [lastIndex length].
  destruct (IH (n + 1) (if String.eqb col name then n else acc)) as [-> | H].
  - destruct (String.eqb col name); [right; lia | now left].
  - right. lia.
Qed.

Lemma Scan_header columns : forall n st,
  Scan.header columns n st =
  Scan.mk (lastIndex "bssid" columns n (Scan.bssidCol st))
          (lastIndex "frequency" columns n (Scan.freqCol st))
          (lastIndex "signal level" columns n (Scan.rssiCol st))
          (lastIndex "flags" columns n (Scan.flagsCol st))
          (lastIndex "ssid" columns n (Scan.ssidCol st))
          (match columns with
           | [] => Scan.maxCol st
           | _ => n + Z.of_nat (length columns) - 1
           end).
Proof.
  induction columns as [|col rest IH]; intros n st; [now destruct st|].
  cbn [Scan.header lastIndex]. rewrite IH. f_equal.
  1-5: unfold Scan.column;
       destruct (String.eqb_spec col "bssid") as [-> | ?]; [reflexivity|];
       destruct (String.eqb_spec col "frequency") as [-> | ?]; [reflexivity|];
       destruct (String.eqb_spec col "signal level") as [-> | ?]; [reflexivity|];
       destruct (String.eqb_spec col "flags") as [-> | ?]; [reflexivity|];
       destruct (String.eqb_spec col "ssid") as [-> | ?]; reflexivity.
  destruct rest as [|c rest]; cbn [length Scan.maxCol Scan.column]; lia.
Qed.

Lemma Networks_header columns : forall n st,
  Networks.header columns n st =
  Networks.mk (lastIndex "network id" columns n (Networks.networkIDCol st))
              (lastIndex "ssid" columns n (Networks.ssidCol st))
              (lastIndex "bssid" columns n (Networks.bssidCol st))
              (lastIndex "flags" columns n (Networks.flagsCol st))
              (match columns with
               | [] => Networks.maxCol st
               | _ => n + Z.of_nat (length columns) - 1
               end).
Proof.
  induction columns as [|col rest IH]; intros n st; [now destruct st|].
  cbn [Networks.header lastIndex]. rewrite IH. f_equal.
  1-4: unfold Networks.column;
       destruct (String.eqb_spec col "network id") as [-> | ?]; [reflexivity|];
       destruct (String.eqb_spec col "ssid") as [-> | ?]; [reflexivity|];
       destruct (String.eqb_spec col "bssid") as [-> | ?]; [reflexivity|];
       destruct (String.eqb_spec col "flags") as [-> | ?]; reflexivity.
  destruct rest as [|c rest]; cbn [length Networks.maxCol Networks.column]; lia.
Qed.

Section Permuted.
Variable p : list nat.
Variable n : nat.
Hypothesis Hp : Permutation p (seq 0 n).

Lemma perm_bound j i : p !! j = Some i -> (i < n)%nat /\ (j < n)%nat.
Proof.
  intros H. split.
  - assert (Hin : i ∈ seq 0 n).
    { rewrite <- Hp. apply list_elem_of_lookup. eauto. }
    apply elem_of_seq in Hin. lia.
  - apply lookup_lt_Some in H. apply Permutation_length in Hp.
    rewrite length_seq in Hp. lia.
Qed.

Lemma perm_source i : (i < n)%nat -> exists j, p !! j = Some i.
Proof.
  intros H. apply list_elem_of_lookup. rewrite Hp. apply elem_of_seq. lia.
Qed.

Lemma perm_target j : (j < n)%nat -> exists i, p !! j = Some i.
Proof.
  intros H. apply lookup_lt_is_Some.
  apply Permutation_length in Hp. rewrite length_seq in Hp. lia.
Qed.

Lemma perm_inj j1 j2 i : p !! j1 = Some i -> p !! j2 = Some i -> j1 = j2.
Proof.
  assert (Hnd : NoDup p) by (rewrite Hp; apply NoDup_seq).
  intros H1 H2. eapply NoDup_lookup; eauto.
Qed.

(** The header loop finds every name at the place the permutation
    moved it to. *)
Lemma lastIndex_permuted (columns columns' : list string) (name : string) :
  length columns = n -> NoDup columns -> permuted p columns columns' ->
  (lastIndex name columns 0 (-1) = -1 /\ lastIndex name columns' 0 (-1) = -1)
  \/ exists i j,
       lastIndex name columns 0 (-1) = Z.of_nat i /\
       lastIndex name columns' 0 (-1) = Z.of_nat j /\
       p !! j = Some i.
Proof.
  intros Hlen Hnd [Hlen' Hperm].
  assert (Hnd' : NoDup columns').
  { apply NoDup_alt. intros j1 j2 x H1 H2.
    destruct (perm_target j1) as [i1 Hi1]; [apply lookup_lt_Some in H1; lia|].
    destruct (perm_target j2) as [i2 Hi2]; [apply lookup_lt_Some in H2; lia|].
    rewrite (Hperm _ _ Hi1) in H1. rewrite (Hperm _ _ Hi2) in H2.
    assert (i1 = i2) as -> by (eapply NoDup_lookup; eauto).
    eapply perm_inj; eauto. }
  destruct (decide (name ∈ columns)) as [Hin | Hnin].
  - right. apply list_elem_of_lookup in Hin as [i Hi].
    destruct (perm_source i) as [j Hj]; [apply lookup_lt_Some in Hi; lia|].
    exists i, j. split; [|split; [|exact Hj]].
    + rewrite (lastIndex_lookup name columns 0 (-1) i Hnd Hi). lia.
    + rewrite (lastIndex_lookup name columns' 0 (-1) j Hnd'); [lia|].
      now rewrite (Hperm _ _ Hj).
  - left. split; [now apply lastIndex_absent|]. apply lastIndex_absent.
    intros Hin'. apply Hnin. apply list_elem_of_lookup in Hin' as [j Hj'].
    destruct (perm_target j) as [i Hi]; [apply lookup_lt_Some in Hj'; lia|].
    rewrite (Hperm _ _ Hi) in Hj'. apply list_elem_of_lookup. eauto.
Qed.

(** A row that passed the length check is read alike before and after
    the permutation, also where the read is out of range. *)
Lemma index_permuted (fields fields' : list string) j i :
  permuted p fields fields' ->
  (Z.of_nat (length fields) <? Z.of_nat n - 1) = false ->
  p !! j = Some i ->
  index fields' (Z.of_nat j) = index fields (Z.of_nat i).
Proof.
  intros [Hlen Hperm] Hcheck Hji. apply Z.ltb_ge in Hcheck.
  destruct (perm_bound j i Hji) as [Hi Hj].
  destruct (fields !! i) as [x|] eqn:E.
  - rewrite (index_lookup fields i x E).
    apply index_lookup. now rewrite (Hperm _ _ Hji).
  - pose proof E as E'. rewrite <- (Hperm _ _ Hji) in E'.
    apply lookup_ge_None in E. apply lookup_ge_None in E'.
    assert (i = j) as -> by lia.
    rewrite !index_beyond by lia. now rewrite Hlen.
Qed.

Lemma sameField_permuted (columns columns' fields fields' : list string) name :
  length columns = n -> NoDup columns -> permuted p columns columns' ->
  permuted p fields fields' ->
  (Z.of_nat (length fields) <? Z.of_nat n - 1) = false ->
  sameField fields fields'
    (lastIndex name columns 0 (-1)) (lastIndex name columns' 0 (-1)).
Proof.
  intros Hlen Hnd Hcols Hfields Hcheck.
  destruct (lastIndex_permuted columns columns' name Hlen Hnd Hcols)
    as [[-> ->] | (i & j & -> & -> & Hji)].
  - split; [reflexivity | discriminate].
  - split.
    + destruct (Z.eqb_spec (Z.of_nat j) (-1)), (Z.eqb_spec (Z.of_nat i) (-1)); lia || reflexivity.
    + intros _. now apply index_permuted.
Qed.
End Permuted.

(** One column variable in the row loops: either the column is absent
    for both rows, or both rows are read and the reads agree. *)
Ltac same_field H :=
  let E := fresh "E" in
  let Hi := fresh "Hi" in
  destruct H as [E Hi]; rewrite E;
  match type of E with
  | _ = (?c =? -1) =>
    destruct (c =? -1); cbn [negb bind];
    [clear Hi | rewrite (Hi eq_refl); clear Hi]
  end.

(** The same for a field that is read and then checked by a parser. *)
Ltac checked_field H fields c :=
  same_field H;
  [ cbn [fst snd]
  | destruct (index fields c) as [?f| |]; cbn [bind]; [|reflexivity..];
    match goal with
    | |- context [snd ?x] =>
      let e := fresh "e" in
      destruct x as [? e]; cbn [fst snd]; destruct e; [|reflexivity..]
    end ].

Lemma Scan_row_permuted st st' ln ln' fields fields' :
  sameField fields fields' (Scan.bssidCol st) (Scan.bssidCol st') ->
  sameField fields fields' (Scan.freqCol st) (Scan.freqCol st') ->
  sameField fields fields' (Scan.rssiCol st) (Scan.rssiCol st') ->
  sameField fields fields' (Scan.flagsCol st) (Scan.flagsCol st') ->
  sameField fields fields' (Scan.ssidCol st) (Scan.ssidCol st') ->
  outcome_map recordOf (Scan.row st' ln' fields') = outcome_map recordOf (Scan.row st ln fields).
Proof.
  intros H1 H2 H3 H4 H5. unfold Scan.row.
  checked_field H1 fields (Scan.bssidCol st);
    checked_field H2 fields (Scan.freqCol st);
    checked_field H3 fields (Scan.rssiCol st);
    same_field H4; same_field H5; reflexivity.
Qed.

Lemma Networks_row_permuted st st' fields fields' :
  sameField fields fields' (Networks.networkIDCol st) (Networks.networkIDCol st') ->
  sameField fields fields' (Networks.ssidCol st) (Networks.ssidCol st') ->
  sameField fields fields' (Networks.bssidCol st) (Networks.bssidCol st') ->
  sameField fields fields' (Networks.flagsCol st) (Networks.flagsCol st') ->
  Networks.row st' fields' = Networks.row st fields.
Proof.
  intros H1 H2 H3 H4. unfold Networks.row.
  same_field H1; same_field H2; same_field H3; same_field H4; reflexivity.
Qed.

Lemma Scan_rows_permuted (R : string -> string -> Prop) st st' :
  Scan.maxCol st' = Scan.maxCol st ->
  (forall ln ln', R ln ln' ->
     length (Split ln' TAB) = length (Split ln TAB)) ->
  (forall ln ln', R ln ln' ->
     (Z.of_nat (length (Split ln TAB)) <? Scan.maxCol st) = false ->
     outcome_map recordOf (Scan.row st' ln' (Split ln' TAB))
     = outcome_map recordOf (Scan.row st ln (Split ln TAB))) ->
  forall rows rows', Forall2 R rows rows' ->
  forall res errs errs',
    outcome_map fst (Scan.rows st' rows' res errs') = outcome_map fst (Scan.rows st rows res errs).
Proof.
  intros Hmax Hlen Hrow rows rows' HR.
  induction HR as [|ln ln' rows rows' Hln HR IH]; intros res errs errs'; [reflexivity|].
  cbn [Scan.rows]. rewrite Hmax, (Hlen _ _ Hln).
  destruct (Z.of_nat (length (Split ln TAB)) <? Scan.maxCol st) eqn:Hc; [apply IH|].
  specialize (Hrow _ _ Hln Hc).
  destruct (Scan.row st' ln' (Split ln' TAB)) as [[r'|e']| |],
           (Scan.row st ln (Split ln TAB)) as [[r|e]| |];
    cbn in Hrow; try discriminate Hrow; try (injection Hrow as ->);
    cbn [bind]; first [apply IH | exact Hrow | reflexivity].
Qed.

Lemma Networks_rows_permuted (R : string -> string -> Prop) st st' :
  Networks.maxCol st' = Networks.maxCol st ->
  (forall ln ln', R ln ln' ->
     length (Split ln' TAB) = length (Split ln TAB)) ->
  (forall ln ln', R ln ln' ->
     (Z.of_nat (length (Split ln TAB)) <? Networks.maxCol st) = false ->
     Networks.row st' (Split ln' TAB) = Networks.row st (Split ln TAB)) ->
  forall rows rows', Forall2 R rows rows' ->
  forall res,
    outcome_map fst (Networks.rows st' rows' res) = outcome_map fst (Networks.rows st rows res).
Proof.
  intros Hmax Hlen Hrow rows rows' HR.
  induction HR as [|ln ln' rows rows' Hln HR IH]; intros res; [reflexivity|].
  cbn [Networks.rows]. rewrite Hmax, (Hlen _ _ Hln).
  destruct (Z.of_nat (length (Split ln TAB)) <? Networks.maxCol st) eqn:Hc; [reflexivity|].
  rewrite (Hrow _ _ Hln Hc).
  destruct (Networks.row st (Split ln TAB)) as [r| |]; cbn [bind];
    [apply IH | reflexivity..].
Qed.

Lemma last_column (columns : list string) :
  match columns with
  | [] => -1
  | _ => 0 + Z.of_nat (length columns) - 1
  end = Z.of_nat (length columns) - 1.
Proof. destruct columns; cbn [length]; lia. Qed.

(** Column order does not matter to [parseScanResults] on a header
    without a repeated name. *)
Lemma parseScanResults_permuted p resp resp' :
  NoDup (headerColumns resp) ->
  Permutation p (seq 0 (length (headerColumns resp))) ->
  columnsPermuted p resp resp' ->
  outcome_map fst (parseScanResults resp') = outcome_map fst (parseScanResults resp).
Proof.
  intros Hnd Hp (hdr & hdr' & rows & rows' & Hs & Hs' & Hh & Hrows).
  unfold parseScanResults, headerColumns in *. rewrite Hs in *. rewrite Hs'.
  rewrite !Scan_header. cbn [Scan.bssidCol Scan.freqCol Scan.rssiCol
    Scan.flagsCol Scan.ssidCol Scan.maxCol Scan.init].
  rewrite !last_column.
  apply Scan_rows_permuted
    with (R := fun r r' => permuted p (Split r TAB) (Split r' TAB));
    cbn [Scan.bssidCol Scan.freqCol Scan.rssiCol Scan.flagsCol Scan.ssidCol Scan.maxCol].
  - now rewrite (proj1 Hh).
  - intros ln ln' [Hl _]. exact Hl.
  - intros ln ln' Hln Hc.
    apply Scan_row_permuted;
      cbn [Scan.bssidCol Scan.freqCol Scan.rssiCol Scan.flagsCol Scan.ssidCol];
      eapply sameField_permuted; eauto.
  - exact Hrows.
Qed.

(** The same for [parseListNetworksResult]. *)
Lemma parseListNetworksResult_permuted p resp resp' :
  NoDup (headerColumns resp) ->
  Permutation p (seq 0 (length (headerColumns resp))) ->
  columnsPermuted p resp resp' ->
  outcome_map fst (parseListNetworksResult resp') = outcome_map fst (parseListNetworksResult resp).
Proof.
  intros Hnd Hp (hdr & hdr' & rows & rows' & Hs & Hs' & Hh & Hrows).
  unfold parseListNetworksResult, headerColumns in *. rewrite Hs in *. rewrite Hs'.
  rewrite !Networks_header. cbn [Networks.networkIDCol Networks.ssidCol
    Networks.bssidCol Networks.flagsCol Networks.maxCol Networks.init].
  rewrite !last_column.
  apply Networks_rows_permuted
    with (R := fun r r' => permuted p (Split r TAB) (Split r' TAB));
    cbn [Networks.networkIDCol Networks.ssidCol Networks.bssidCol
         Networks.flagsCol Networks.maxCol].
  - now rewrite (proj1 Hh).
  - intros ln ln' [Hl _]. exact Hl.
  - intros ln ln' Hln Hc.
    apply Networks_row_permuted;
      cbn [Networks.networkIDCol Networks.ssidCol Networks.bssidCol Networks.flagsCol];
      eapply sameField_permuted; eauto.
  - exact Hrows.
Qed.




Ltac moved :=
  split; [vm_compute; reflexivity|];
  let j := fresh "j" in
  let i := fresh "i" in
  let H := fresh "H" in
  intros j i H;
  repeat (destruct j as [|j]; [injection H as <-; vm_compute; reflexivity|]);
  discriminate H.



(** ** The round trip away from a final backslash *)

Lemma get_append_skip pre suf : forall k,
  String.get (String.length pre + k) (pre +:+ suf) = String.get k suf.
Proof.
  induction pre as [|a pre IH]; intros k; [reflexivity|].
  rewrite append_cons. cbn [String.length Nat.add String.get]. apply IH.
Qed.

Lemma substring_append_at pre suf : forall k m,
  substring (String.length pre + k) m (pre +:+ suf) = substring k m suf.
Proof.
  induction pre as [|a pre IH]; intros k m; [reflexivity|].
  rewrite append_cons. cbn [String.length Nat.add substring]. apply IH.
Qed.

Lemma byteAt_shift pre suf k :
  0 <= k < len suf -> byteAt (pre +:+ suf) (len pre + k) = byteAt suf k.
Proof.
  intros Hk. unfold byteAt. rewrite len_append.
  replace (Z.to_nat (len pre + k)) with (String.length pre + Z.to_nat k)%nat
    by (unfold len; lia).
  rewrite get_append_skip. pose proof (len_nonneg pre).
  destruct (get_is_Some suf (Z.to_nat k)) as [c ->]; [unfold len in Hk; lia|].
  destruct (Z.leb_spec 0 (len pre + k)), (Z.ltb_spec (len pre + k) (len pre + len suf)),
    (Z.leb_spec 0 k), (Z.ltb_spec k (len suf)); try lia. reflexivity.
Qed.

Lemma slice_shift pre suf a b :
  0 <= a <= b -> b <= len suf ->
  slice (pre +:+ suf) (len pre + a) (len pre + b) = slice suf a b.
Proof.
  intros Ha Hb. unfold slice. rewrite len_append.
  replace (Z.to_nat (len pre + a)) with (String.length pre + Z.to_nat a)%nat
    by (unfold len; lia).
  replace (len pre + b - (len pre + a)) with (b - a) by lia.
  rewrite substring_append_at. pose proof (len_nonneg pre).
  destruct (Z.leb_spec 0 (len pre + a)), (Z.leb_spec (len pre + a) (len pre + b)),
    (Z.leb_spec (len pre + b) (len pre + len suf)),
    (Z.leb_spec 0 a), (Z.leb_spec a b), (Z.leb_spec b (len suf)); try lia.
  reflexivity.
Qed.

Lemma DecodeString_hexDigits b :
  DecodeString (String (hexDigit (byteval b / 16))
                  (String (hexDigit (byteval b mod 16)) EmptyString))
  = String b EmptyString.
Proof. destruct b as [[] [] [] [] [] [] [] []]; reflexivity. Qed.

Lemma stringOfByte_backslash b :
  String.eqb (stringOfByte b) BACKSLASH = Ascii.eqb b (ascii_of_nat 92).
Proof. destruct b as [[] [] [] [] [] [] [] []]; reflexivity. Qed.

Lemma lastByte_cons b s :
  s <> EmptyString -> lastByte (String b s) = lastByte s.
Proof. destruct s; [congruence | reflexivity]. Qed.

Lemma encodeByte_length b : 1 <= len (encodeByte b).
Proof.
  unfold encodeByte, BACKSLASH.
  destruct (Ascii.eqb b _); [|destruct (_ && _)];
    rewrite ?len_append, ?len_String; change (len EmptyString) with 0; lia.
Qed.

Lemma substring_prefix mid rest :
  substring 0 (String.length mid) (mid +:+ rest) = mid.
Proof.
  induction mid as [|a mid IH]; [destruct rest; reflexivity|].
  rewrite append_cons. cbn [String.length substring]. now rewrite IH.
Qed.

Lemma slice_in input pre mid rest idx k :
  input = pre +:+ mid +:+ rest -> idx = len pre -> k = len mid ->
  slice input idx (idx + k) = Returns mid.
Proof.
  intros -> -> ->. replace (len pre) with (len pre + 0) at 1 by lia.
  pose proof (len_nonneg mid). pose proof (len_nonneg rest).
  rewrite slice_shift by (rewrite ?len_append; lia).
  unfold slice. rewrite len_append.
  destruct (Z.leb_spec 0 (len mid)), (Z.leb_spec (len mid) (len mid + len rest)); try lia.
  cbn [Z.leb andb]. rewrite Z.sub_0_r. unfold len. rewrite Nat2Z.id.
  change (Z.to_nat 0) with 0%nat. now rewrite substring_prefix.
Qed.

Lemma slice_in_at input pre skip mid rest idx a b :
  input = pre +:+ skip +:+ mid +:+ rest -> idx = len pre ->
  a = len skip -> b = a + len mid ->
  slice input (idx + a) (idx + b) = Returns mid.
Proof.
  intros -> -> -> ->. rewrite Z.add_assoc.
  apply (slice_in _ (pre +:+ skip) mid rest).
  - now rewrite append_assoc.
  - now rewrite len_append.
  - reflexivity.
Qed.

Lemma byteAt_in input pre c rest idx :
  input = pre +:+ String c rest -> idx = len pre -> byteAt input idx = Returns c.
Proof.
  intros -> ->. replace (len pre) with (len pre + 0) by lia.
  rewrite byteAt_shift; [apply byteAt_head|].
  rewrite len_String. pose proof (len_nonneg rest). lia.
Qed.

Lemma byteAt_in_1 input pre a c rest idx :
  input = pre +:+ String a (String c rest) -> idx = len pre ->
  byteAt input (idx + 1) = Returns c.
Proof.
  intros -> ->. rewrite byteAt_shift; [apply byteAt_1|].
  rewrite !len_String. pose proof (len_nonneg rest). lia.
Qed.

Lemma encodeByteLiteral_nonempty bytes :
  bytes <> EmptyString -> 1 <= len (encodeByteLiteral bytes).
Proof.
  destruct bytes as [|b bytes]; [congruence|]. intros _.
  cbn [encodeByteLiteral]. rewrite len_append.
  pose proof (encodeByte_length b). pose proof (len_nonneg (encodeByteLiteral bytes)). lia.
Qed.

Lemma decodeLoop_encoded bytes : forall fuel input pre idx r,
  input = pre +:+ encodeByteLiteral bytes -> idx = len pre ->
  lastByte bytes <> Some (ascii_of_nat 92) ->
  len (encodeByteLiteral bytes) <= Z.of_nat fuel ->
  decodeLoop fuel input idx r = Returns (r +:+ bytes).
Proof.
  induction bytes as [|b bytes IH]; intros fuel input pre idx r Hin Hidx Hlast Hfuel.
  - cbn [encodeByteLiteral] in Hin. rewrite append_nil_r in *. subst.
    destruct fuel; cbn [decodeLoop]; now rewrite Z.ltb_irrefl.
  - cbn [encodeByteLiteral] in *.
    set (enc := encodeByteLiteral bytes) in *.
    pose proof (encodeByte_length b) as Hb.
    pose proof (len_nonneg enc) as Hrest.
    assert (Hlen : len input = len pre + len (encodeByte b) + len enc).
    { rewrite Hin, !len_append. lia. }
    rewrite len_append in Hfuel.
    destruct fuel as [|fuel]; [lia|]. cbn [decodeLoop].
    destruct (Z.ltb_spec idx (len input)) as [_ | ?]; [|lia].
    destruct (Z.ltb_spec idx (len input + 3)) as [_ | ?]; [|lia].
    unfold encodeByte in *.
    destruct (Ascii.eqb_spec b (ascii_of_nat 92)) as [-> | Hnb].
    + (* a backslash, written twice *)
      assert (Hne : bytes <> EmptyString).
      { intros ->. now apply Hlast. }
      pose proof (encodeByteLiteral_nonempty bytes Hne) as Hge. fold enc in Hge.
      change (len (BACKSLASH +:+ BACKSLASH)) with 2 in *.
      destruct (Z.ltb_spec idx (len input - 2)) as [_ | ?]; [|lia].
      rewrite (slice_in input pre (BACKSLASH +:+ BACKSLASH) enc idx 2 Hin Hidx eq_refl).
      cbn [bind]. rewrite String.eqb_refl.
      rewrite (slice_in input pre BACKSLASH (BACKSLASH +:+ enc) idx 1 Hin Hidx eq_refl).
      cbn [bind].
      rewrite (IH fuel input (pre +:+ BACKSLASH +:+ BACKSLASH) (idx + 2) (r +:+ BACKSLASH)).
      * now rewrite append_assoc.
      * now rewrite append_assoc.
      * rewrite !len_append. change (len BACKSLASH) with 1. lia.
      * now rewrite lastByte_cons in Hlast.
      * lia.
    + apply Ascii.eqb_neq in Hnb.
      assert (Hlast' : bytes <> EmptyString -> lastByte bytes <> Some (ascii_of_nat 92)).
      { intros Hne. now rewrite lastByte_cons in Hlast. }
      assert (Hlast'' : lastByte bytes <> Some (ascii_of_nat 92)).
      { destruct bytes; [discriminate | apply Hlast'; discriminate]. }
      destruct ((32 <=? byteval b) && (byteval b <=? 126)).
      * (* a printable byte, written as itself *)
        change (len (String b EmptyString)) with 1 in *.
        assert (Hpair : (do pair <-
                  (if idx <? len input - 2
                   then do s <- slice input idx (idx + 2);
                        Returns (String.eqb s (BACKSLASH +:+ BACKSLASH))
                   else Returns false);
                  Returns pair) = Returns false).
        { destruct (Z.ltb_spec idx (len input - 2)); [|reflexivity].
          destruct enc as [|c enc']; [change (len EmptyString) with 0 in *; lia|].
          rewrite (slice_in input pre (String b (String c EmptyString)) enc' idx 2 Hin Hidx eq_refl).
          cbn [bind]. change (BACKSLASH +:+ BACKSLASH)
            with (String (ascii_of_nat 92) (String (ascii_of_nat 92) EmptyString)).
          cbn [String.eqb]. now rewrite Hnb. }
        destruct (if idx <? len input - 2 then _ else _) as [pair| |];
          cbn [bind] in Hpair; try discriminate Hpair.
        injection Hpair as ->. cbn [bind].
        rewrite (byteAt_in input pre b enc idx Hin Hidx). cbn [bind].
        rewrite stringOfByte_backslash, Hnb. cbn [bind].
        rewrite (IH fuel input (pre +:+ String b EmptyString) (idx + 1)
                   (r +:+ String b EmptyString)).
        -- now rewrite append_assoc.
        -- now rewrite append_assoc.
        -- rewrite len_append. change (len (String b EmptyString)) with 1. lia.
        -- exact Hlast''.
        -- lia.
      * (* any other byte, written in hexadecimal *)
        set (h1 := hexDigit (byteval b / 16)) in *.
        set (h2 := hexDigit (byteval b mod 16)) in *.
        change (len (BACKSLASH +:+ "x" +:+ String h1 (String h2 EmptyString))) with 4 in *.
        destruct (Z.ltb_spec idx (len input - 2)) as [_ | ?]; [|lia].
        rewrite (slice_in input pre (BACKSLASH +:+ "x") (String h1 (String h2 enc))
                   idx 2 Hin Hidx eq_refl).
        cbn [bind]. change (String.eqb (BACKSLASH +:+ "x") (BACKSLASH +:+ BACKSLASH)) with false.
        cbn [bind].
        rewrite (byteAt_in input pre (ascii_of_nat 92)
                   (String "x" (String h1 (String h2 enc))) idx Hin Hidx).
        cbn [bind]. change (String.eqb (stringOfByte (ascii_of_nat 92)) BACKSLASH) with true.
        cbn [bind].
        rewrite (byteAt_in_1 input pre (ascii_of_nat 92) "x"
                   (String h1 (String h2 enc)) idx Hin Hidx).
        cbn [bind]. change (String.eqb (stringOfByte "x") "x") with true. cbn [bind].
        rewrite (slice_in_at input pre (BACKSLASH +:+ "x") (String h1 (String h2 EmptyString))
                   enc idx 2 4 Hin Hidx eq_refl eq_refl).
        cbn [bind]. unfold h1, h2. rewrite DecodeString_hexDigits.
        rewrite (IH fuel input
                   (pre +:+ BACKSLASH +:+ "x" +:+ String h1 (String h2 EmptyString))
                   (idx + 4) (r +:+ String b EmptyString)).
        -- now rewrite append_assoc.
        -- rewrite Hin. now rewrite !append_assoc.
        -- rewrite !len_append. change (len BACKSLASH) with 1.
           change (len "x") with 1.
           change (len (String h1 (String h2 EmptyString))) with 2. lia.
        -- exact Hlast''.
        -- lia.
Qed.

(** Decoding the encoding of a byte sequence gives the sequence back,
    unless the sequence ends in a backslash. *)
Lemma roundtrip_unless_final_backslash bytes :
  lastByte bytes <> Some (ascii_of_nat 92) ->
  decodeByteLiteralString (encodeByteLiteral bytes) = Returns bytes.
Proof.
  intros Hlast. unfold decodeByteLiteralString.
  apply (decodeLoop_encoded bytes _ _ EmptyString 0 EmptyString);
    [reflexivity | reflexivity | exact Hlast | unfold len; lia].
Qed.

(** ** Rows that are read within their fields *)

Lemma parseFlags_returns f : exists l, parseFlags f = Returns l.
Proof.
  unfold parseFlags. destruct (Z.leb_spec 2 (len f)) as [H | H]; [|cbn; eauto].
  destruct f as [|a f]; [unfold len in H; cbn in H; lia|]. rewrite byteAt_head. cbn [bind].
  destruct (Ascii.eqb a "["); [|cbn; eauto].
  assert (Hlast : exists c, byteAt (String a f) (len (String a f) - 1) = Returns c).
  { unfold byteAt.
    destruct (get_is_Some (String a f) (Z.to_nat (len (String a f) - 1))) as [c ->];
      [unfold len in *; lia|].
    destruct (Z.leb_spec 0 (len (String a f) - 1)),
      (Z.ltb_spec (len (String a f) - 1) (len (String a f))); try lia. eauto. }
  destruct Hlast as [c ->]. cbn [bind]. destruct (Ascii.eqb c "]"); [|eauto].
  unfold slice.
  destruct (Z.leb_spec 1 (len (String a f) - 1)),
    (Z.leb_spec (len (String a f) - 1) (len (String a f))); try lia.
  cbn. eauto.
Qed.

Lemma index_within {A} (l : list A) (i : Z) :
  0 <= i < Z.of_nat (length l) -> exists x, index l i = Returns x.
Proof.
  intros H. destruct (lookup_lt_is_Some_2 l (Z.to_nat i)) as [x Hx]; [lia|].
  exists x. rewrite <- (index_lookup l (Z.to_nat i) x Hx). f_equal. lia.
Qed.

(** A column variable after the header loop: -1, or an index below the
    number of columns. *)
Lemma lastIndex_column name columns :
  lastIndex name columns 0 (-1) = -1 \/
  0 <= lastIndex name columns 0 (-1) < Z.of_nat (length columns).
Proof.
  destruct (lastIndex_range name columns 0 (-1)) as [H | H]; [now left | right; lia].
Qed.

Lemma guarded_index (fields : list string) (c n : Z) :
  c = -1 \/ 0 <= c < n -> n <= Z.of_nat (length fields) ->
  exists x, (if negb (c =? -1) then index fields c else Returns EmptyString) = Returns x.
Proof.
  intros [-> | Hc] Hn; [cbn; eauto|].
  destruct (Z.eqb_spec c (-1)); [lia|]. cbn [negb]. apply index_within. lia.
Qed.

Lemma Networks_row_returns columns fields :
  Z.of_nat (length columns) <= Z.of_nat (length fields) ->
  exists r, Networks.row (Networks.header columns 0 Networks.init) fields = Returns r.
Proof.
  intros Hn. rewrite Networks_header. unfold Networks.row.
  cbn [Networks.networkIDCol Networks.ssidCol Networks.bssidCol Networks.flagsCol
       Networks.init].
  destruct (guarded_index fields _ _ (lastIndex_column "network id" columns) Hn) as [x1 ->].
  destruct (guarded_index fields _ _ (lastIndex_column "ssid" columns) Hn) as [x2 ->].
  destruct (guarded_index fields _ _ (lastIndex_column "bssid" columns) Hn) as [x3 ->].
  cbn [bind].
  destruct (lastIndex_column "flags" columns) as [-> | Hc]; [cbn; eauto|].
  destruct (Z.eqb_spec (lastIndex "flags" columns 0 (-1)) (-1)); [lia|]. cbn [negb].
  destruct (index_within fields (lastIndex "flags" columns 0 (-1))) as [f ->]; [lia|].
  cbn [bind]. destruct (parseFlags_returns f) as [l ->]. cbn. eauto.
Qed.

Lemma Networks_rows_abort st pre ln post : forall res,
  Forall (fun r => (Z.of_nat (length (Split r TAB)) <? Networks.maxCol st) = false
                   /\ exists x, Networks.row st (Split r TAB) = Returns x) pre ->
  (Z.of_nat (length (Split ln TAB)) <? Networks.maxCol st) = true ->
  Networks.rows st (pre ++ ln :: post) res = Returns ([], ParseError ln Nil).
Proof.
  induction pre as [|r pre IH]; intros res Hpre Hln.
  - cbn [app Networks.rows]. now rewrite Hln.
  - apply Forall_cons in Hpre as [[Hr [x Hx]] Hpre].
    cbn [app Networks.rows]. rewrite Hr, Hx. cbn [bind]. now apply IH.
Qed.

(** The parse stops at the first row with fewer fields than the highest
    column index, with the [ParseError] of that row and no records, when
    every row before it has a field for every column of the header. *)
Lemma parseListNetworksResult_aborts_at_short_row resp hdr pre ln post :
  ScanLines resp = hdr :: pre ++ ln :: post ->
  Forall (fun r => length (Split hdr " / ") <= length (Split r TAB))%nat pre ->
  (length (Split ln TAB) < length (Split hdr " / ") - 1)%nat ->
  parseListNetworksResult resp = Returns ([], ParseError ln Nil).
Proof.
  intros Hs Hpre Hln. unfold parseListNetworksResult. rewrite Hs.
  assert (Hmax : Networks.maxCol (Networks.header (Split hdr " / ") 0 Networks.init)
                 = Z.of_nat (length (Split hdr " / ")) - 1).
  { rewrite Networks_header. cbn [Networks.maxCol Networks.init]. apply last_column. }
  apply Networks_rows_abort.
  - eapply Forall_impl; [exact Hpre|]. intros r Hr. cbn beta in *. split.
    + rewrite Hmax. apply Z.ltb_ge. lia.
    + apply Networks_row_returns. lia.
  - rewrite Hmax. apply Z.ltb_lt. lia.
Qed.

(** The loop of [parseScanResults] appends, row by row, the record or
    the error of each round, as long as every round ends normally. *)
Lemma Scan_rows_accounts st rows : forall steps res errs,
  Forall2 (fun ln s => verdict st ln = Returns s) rows steps ->
  Scan.rows st rows res errs =
  Returns (res ++ omap recordOf steps, errs ++ omap errorOf steps).
Proof.
  induction rows as [|ln rows IH]; intros steps res errs H.
  - apply Forall2_nil_inv_l in H as ->. cbn. now rewrite !app_nil_r.
  - apply Forall2_cons_inv_l in H as (s & steps' & Hs & H & ->).
    cbn [Scan.rows]. unfold verdict in Hs. cbv zeta in Hs.
    destruct (Z.of_nat (length (Split ln TAB)) <? Scan.maxCol st).
    + injection Hs as <-. rewrite (IH steps' _ _ H). cbn. now rewrite <- app_assoc.
    + rewrite Hs. cbn [bind]. destruct s as [r | e]; rewrite (IH steps' _ _ H); cbn;
        now rewrite <- app_assoc.
Qed.

Lemma steps_account (steps : list Scan.step) :
  (length (omap recordOf steps) + length (omap errorOf steps) = length steps)%nat.
Proof.
  induction steps as [|[r | e] steps IH]; cbn; lia.
Qed.

(** When every round ends normally, the records and the errors are
    those of the rows, in order, one per row. *)
Lemma parseScanResults_accounts resp hdr rows steps :
  ScanLines resp = hdr :: rows ->
  Forall2 (fun ln s =>
             verdict (Scan.header (Split hdr " / ") 0 Scan.init) ln = Returns s)
          rows steps ->
  parseScanResults resp = Returns (omap recordOf steps, omap errorOf steps)
  /\ (length (omap recordOf steps) + length (omap errorOf steps) = length rows)%nat.
Proof.
  intros Hs H. unfold parseScanResults. rewrite Hs. split.
  - now rewrite (Scan_rows_accounts _ rows steps [] [] H).
  - rewrite steps_account. symmetry. eapply Forall2_length; eauto.
Qed.

(** ** More on the wire codec *)

Lemma written_length bytes text : written bytes text -> len bytes <= len text.
Proof.
  induction 1; rewrite ?len_String in *; lia.
Qed.

Lemma decodeLoop_written bytes text :
  written bytes text ->
  forall fuel input pre idx r,
    input = pre +:+ text -> idx = len pre -> len text <= Z.of_nat fuel ->
    decodeLoop fuel input idx r = Returns (r +:+ bytes).
Proof.
  induction 1 as [|b bytes text Hb Hw IH|bytes text Hne Hw IH
                  |h1 h2 v1 v2 bytes text H1 H2 Hw IH];
    intros fuel input pre idx r Hin Hidx Hfuel.
  - rewrite append_nil_r in *. subst.
    destruct fuel; cbn [decodeLoop]; now rewrite Z.ltb_irrefl.
  - pose proof (len_nonneg text) as Hrest. rewrite len_String in Hfuel.
    assert (Hlen : len input = len pre + 1 + len text).
    { rewrite Hin, len_append, len_String. lia. }
    destruct fuel as [|fuel]; [lia|]. cbn [decodeLoop].
    destruct (Z.ltb_spec idx (len input)) as [_ | ?]; [|lia].
    destruct (Z.ltb_spec idx (len input + 3)) as [_ | ?]; [|lia].
    apply Ascii.eqb_neq in Hb.
    assert (Hpair : (do pair <-
              (if idx <? len input - 2
               then do s <- slice input idx (idx + 2);
                    Returns (String.eqb s (BACKSLASH +:+ BACKSLASH))
               else Returns false);
              Returns pair) = Returns false).
    { destruct (Z.ltb_spec idx (len input - 2)); [|reflexivity].
      destruct text as [|c text']; [change (len EmptyString) with 0 in *; lia|].
      rewrite (slice_in input pre (String b (String c EmptyString)) text' idx 2 Hin Hidx eq_refl).
      cbn [bind]. change (BACKSLASH +:+ BACKSLASH)
        with (String (ascii_of_nat 92) (String (ascii_of_nat 92) EmptyString)).
      cbn [String.eqb]. now rewrite Hb. }
    destruct (if idx <? len input - 2 then _ else _) as [pair| |];
      cbn [bind] in Hpair; try discriminate Hpair.
    injection Hpair as ->. cbn [bind].
    rewrite (byteAt_in input pre b text idx Hin Hidx). cbn [bind].
    rewrite stringOfByte_backslash, Hb. cbn [bind].
    rewrite (IH fuel input (pre +:+ String b EmptyString) (idx + 1)
               (r +:+ String b EmptyString)).
    + now rewrite append_assoc.
    + now rewrite append_assoc.
    + rewrite len_append. change (len (String b EmptyString)) with 1. lia.
    + lia.
  - assert (Hge : 1 <= len text).
    { destruct text; [congruence|]. rewrite len_String.
      pose proof (len_nonneg text). lia. }
    rewrite !len_String in Hfuel.
    assert (Hlen : len input = len pre + 2 + len text).
    { rewrite Hin, len_append, !len_String. lia. }
    destruct fuel as [|fuel]; [lia|]. cbn [decodeLoop].
    destruct (Z.ltb_spec idx (len input)) as [_ | ?]; [|lia].
    destruct (Z.ltb_spec idx (len input - 2)) as [_ | ?]; [|lia].
    rewrite (slice_in input pre (BACKSLASH +:+ BACKSLASH) text idx 2 Hin Hidx eq_refl).
    cbn [bind]. rewrite String.eqb_refl.
    rewrite (slice_in input pre BACKSLASH (BACKSLASH +:+ text) idx 1 Hin Hidx eq_refl).
    cbn [bind].
    rewrite (IH fuel input (pre +:+ BACKSLASH +:+ BACKSLASH) (idx + 2) (r +:+ BACKSLASH)).
    + now rewrite append_assoc.
    + now rewrite append_assoc.
    + rewrite !len_append. change (len BACKSLASH) with 1. lia.
    + lia.
  - pose proof (len_nonneg text) as Hrest. rewrite !len_String in Hfuel.
    assert (Hlen : len input = len pre + 4 + len text).
    { rewrite Hin, len_append, !len_String. lia. }
    destruct fuel as [|fuel]; [lia|]. cbn [decodeLoop].
    destruct (Z.ltb_spec idx (len input)) as [_ | ?]; [|lia].
    destruct (Z.ltb_spec idx (len input + 3)) as [_ | ?]; [|lia].
    destruct (Z.ltb_spec idx (len input - 2)) as [_ | ?]; [|lia].
    rewrite (slice_in input pre (BACKSLASH +:+ "x") (String h1 (String h2 text))
               idx 2 Hin Hidx eq_refl).
    cbn [bind]. change (String.eqb (BACKSLASH +:+ "x") (BACKSLASH +:+ BACKSLASH)) with false.
    cbn [bind].
    rewrite (byteAt_in input pre (ascii_of_nat 92)
               (String "x" (String h1 (String h2 text))) idx Hin Hidx).
    cbn [bind]. change (String.eqb (stringOfByte (ascii_of_nat 92)) BACKSLASH) with true.
    cbn [bind].
    rewrite (byteAt_in_1 input pre (ascii_of_nat 92) "x"
               (String h1 (String h2 text)) idx Hin Hidx).
    cbn [bind]. change (String.eqb (stringOfByte "x") "x") with true. cbn [bind].
    rewrite (slice_in_at input pre (BACKSLASH +:+ "x") (String h1 (String h2 EmptyString))
               text idx 2 4 Hin Hidx eq_refl eq_refl).
    cbn [bind DecodeString]. rewrite H1, H2.
    rewrite (IH fuel input
               (pre +:+ BACKSLASH +:+ "x" +:+ String h1 (String h2 EmptyString))
               (idx + 4) (r +:+ String (byteof (v1 * 16 + v2)) EmptyString)).
    + now rewrite append_assoc.
    + rewrite Hin. now rewrite !append_assoc.
    + rewrite !len_append. change (len BACKSLASH) with 1.
      change (len "x") with 1.
      change (len (String h1 (String h2 EmptyString))) with 2. lia.
    + lia.
Qed.

(** The decoder gives back the bytes of every text in which a backslash
    only starts a doubled backslash that has text after it or an escape
    of two hexadecimal digits. *)
Theorem decodeByteLiteralString_written bytes text :
  written bytes text -> decodeByteLiteralString text = Returns bytes.
Proof.
  intros Hw. unfold decodeByteLiteralString.
  apply (decodeLoop_written bytes text Hw _ _ EmptyString 0 EmptyString);
    [reflexivity | reflexivity | unfold len; lia].
Qed.

Lemma decodeByteLiteralString_written_witness :
  decodeByteLiteralString ("Caf" +:+ BACKSLASH +:+ "xC3" +:+ BACKSLASH +:+ "xa9"
                           +:+ BACKSLASH +:+ BACKSLASH +:+ "1")
  = Returns ("Caf" +:+ String (byteof 195) (String (byteof 169) EmptyString)
             +:+ BACKSLASH +:+ "1").
Proof.
  apply decodeByteLiteralString_written.
  do 3 (apply written_plain; [discriminate|]).
  apply (written_hex "C" "3" 12 3); [reflexivity..|].
  apply (written_hex "a" "9" 10 9); [reflexivity..|].
  apply written_pair; [discriminate|].
  apply written_plain; [discriminate|]. apply written_end.
Defined.

Lemma written_itself s : mentions (ascii_of_nat 92) s = false -> written s s.
Proof.
  induction s as [|a s IH]; intros H; [constructor|].
  cbn [mentions] in H. apply orb_false_iff in H as [Ha H].
  apply written_plain; [now apply Ascii.eqb_neq | auto].
Qed.

(** A text without a backslash decodes to itself. *)
Theorem decodeByteLiteralString_plain s :
  mentions (ascii_of_nat 92) s = false -> decodeByteLiteralString s = Returns s.
Proof.
  intros H. unfold decodeByteLiteralString.
  apply (decodeLoop_written s s (written_itself s H) _ _ EmptyString 0 EmptyString);
    [reflexivity | reflexivity | unfold len; lia].
Qed.

Lemma decodeByteLiteralString_plain_witness :
  decodeByteLiteralString "MyNetwork" = Returns "MyNetwork".
Proof. apply decodeByteLiteralString_plain. reflexivity. Defined.

Lemma byteAt_within s i : 0 <= i < len s -> exists c, byteAt s i = Returns c.
Proof.
  intros H. unfold byteAt.
  destruct (get_is_Some s (Z.to_nat i)) as [c ->]; [unfold len in H; lia|].
  destruct (Z.leb_spec 0 i), (Z.ltb_spec i (len s)); try lia. eauto.
Qed.

Lemma substring_length s : forall n m,
  (n + m <= String.length s)%nat -> String.length (substring n m s) = m.
Proof.
  induction s as [|a s IH]; intros n m H; cbn [String.length] in H.
  - destruct n, m; cbn; lia.
  - destruct n as [|n]; cbn [substring].
    + destruct m as [|m]; [reflexivity|]. cbn [String.length]. rewrite IH; lia.
    + apply IH. lia.
Qed.

Lemma slice_within s lo hi :
  0 <= lo <= hi -> hi <= len s ->
  exists x, slice s lo hi = Returns x /\ len x = hi - lo.
Proof.
  intros H1 H2. unfold slice.
  destruct (Z.leb_spec 0 lo), (Z.leb_spec lo hi), (Z.leb_spec hi (len s)); try lia.
  eexists. split; [reflexivity|]. unfold len in *. rewrite substring_length; lia.
Qed.

Lemma slice_Returns s lo hi x :
  slice s lo hi = Returns x -> 0 <= lo <= hi /\ hi <= len s /\ len x = hi - lo.
Proof.
  unfold slice.
  destruct (Z.leb_spec 0 lo), (Z.leb_spec lo hi), (Z.leb_spec hi (len s));
    cbn [andb]; try discriminate.
  intros [= <-]. unfold len in *. rewrite substring_length; lia.
Qed.

Lemma byteAt_Returns s i c : byteAt s i = Returns c -> 0 <= i < len s.
Proof.
  unfold byteAt. destruct (Z.leb_spec 0 i), (Z.ltb_spec i (len s));
    cbn [andb]; try discriminate. lia.
Qed.

Lemma DecodeString_short s : len s = 2 -> len (DecodeString s) <= 1.
Proof.
  destruct s as [|a [|b [|c s]]]; unfold len; cbn [String.length]; try lia.
  intros _. cbn [DecodeString].
  destruct (fromHexChar a), (fromHexChar b); cbn; lia.
Qed.

Lemma decodeLoop_no_longer fuel : forall input idx r s,
  0 <= idx <= len input ->
  decodeLoop fuel input idx r = Returns s ->
  len s <= len r + (len input - idx).
Proof.
  induction fuel as [|fuel IH]; intros input idx r s Hidx; cbn [decodeLoop].
  - destruct (Z.ltb_spec idx (len input)); [discriminate|]. intros [= <-]. lia.
  - destruct (Z.ltb_spec idx (len input)); [|intros [= <-]; lia].
    destruct (if idx <? len input - 2 then _ else _) as [[|]| |] eqn:Epair;
      cbn [bind]; try discriminate.
    + destruct (Z.ltb_spec idx (len input - 2)); [|discriminate Epair].
      destruct (slice input idx (idx + 1)) as [x| |] eqn:Ex; cbn [bind]; try discriminate.
      apply slice_Returns in Ex as (_ & _ & Hx). intros Hs.
      apply IH in Hs; [|lia]. rewrite len_append in Hs. lia.
    + destruct (if idx <? len input + 3 then _ else _) as [[|]| |] eqn:Ehex;
        cbn [bind]; try discriminate.
      * destruct (slice input (idx + 2) (idx + 4)) as [x| |] eqn:Ex;
          cbn [bind]; try discriminate.
        apply slice_Returns in Ex as (_ & Hhi & Hx). intros Hs.
        apply IH in Hs; [|lia]. rewrite len_append in Hs.
        assert (len (DecodeString x) <= 1) by (apply DecodeString_short; lia). lia.
      * destruct (byteAt input idx) as [b| |]; cbn [bind]; try discriminate.
        intros Hs. apply IH in Hs; [|lia]. rewrite len_append, len_String in Hs.
        change (len EmptyString) with 0 in Hs. lia.
Qed.

(** The decoded name is never longer than the text it was decoded from. *)
Theorem decodeByteLiteralString_no_longer input s :
  decodeByteLiteralString input = Returns s -> len s <= len input.
Proof.
  intros H. apply decodeLoop_no_longer in H; [|pose proof (len_nonneg input); lia].
  change (len EmptyString) with 0 in H. lia.
Qed.

Lemma decodeByteLiteralString_no_longer_witness :
  len "a*b" <= len ("a" +:+ BACKSLASH +:+ "x2ab").
Proof.
  apply (decodeByteLiteralString_no_longer ("a" +:+ BACKSLASH +:+ "x2ab") "a*b").
  reflexivity.
Defined.

Lemma decodeLoop_returns fuel : forall input idx r,
  (forall i, len input - 3 <= i -> byteAt input i <> Returns (ascii_of_nat 92)) ->
  0 <= idx <= len input -> len input - idx <= Z.of_nat fuel ->
  exists s, decodeLoop fuel input idx r = Returns s.
Proof.
  induction fuel as [|fuel IH]; intros input idx r Hsafe Hidx Hfuel; cbn [decodeLoop].
  - destruct (Z.ltb_spec idx (len input)); [lia | eauto].
  - destruct (Z.ltb_spec idx (len input)); [|eauto].
    assert (Hpair : exists pair,
      (if idx <? len input - 2
       then do s <- slice input idx (idx + 2);
            Returns (String.eqb s (BACKSLASH +:+ BACKSLASH))
       else Returns false) = Returns pair
      /\ (pair = true -> idx < len input - 2)).
    { destruct (Z.ltb_spec idx (len input - 2)); [|eexists; split; [reflexivity | discriminate]].
      destruct (slice_within input idx (idx + 2)) as (x & -> & _); [lia..|].
      cbn [bind]. eauto. }
    destruct Hpair as (pair & -> & Hp). cbn [bind]. destruct pair.
    + specialize (Hp eq_refl).
      destruct (slice_within input idx (idx + 1)) as (x & -> & _); [lia..|].
      cbn [bind]. apply IH; [exact Hsafe | lia | lia].
    + destruct (Z.ltb_spec idx (len input + 3)); [|lia].
      destruct (byteAt_within input idx) as [b0 Hb0]; [lia|]. rewrite Hb0. cbn [bind].
      rewrite stringOfByte_backslash.
      destruct (Ascii.eqb_spec b0 (ascii_of_nat 92)) as [-> | _].
      * assert (idx < len input - 3).
        { destruct (Z.lt_ge_cases idx (len input - 3)) as [Hlt | Hge]; [exact Hlt|].
          exfalso. exact (Hsafe idx Hge Hb0). }
        destruct (byteAt_within input (idx + 1)) as [b1 ->]; [lia|]. cbn [bind].
        destruct (String.eqb (stringOfByte b1) "x"); cbn [bind].
        -- destruct (slice_within input (idx + 2) (idx + 4)) as (x & -> & _); [lia..|].
           cbn [bind]. apply IH; [exact Hsafe | lia | lia].
        -- apply IH; [exact Hsafe | lia | lia].
      * cbn [bind]. apply IH; [exact Hsafe | lia | lia].
Qed.

(** The decoder ends normally on every text that has no backslash among
    its last three bytes. *)
Theorem decodeByteLiteralString_returns input :
  (forall i, len input - 3 <= i -> byteAt input i <> Returns (ascii_of_nat 92)) ->
  exists s, decodeByteLiteralString input = Returns s.
Proof.
  intros Hsafe. apply decodeLoop_returns; [exact Hsafe | | unfold len; lia].
  pose proof (len_nonneg input). lia.
Qed.

Lemma decodeByteLiteralString_returns_witness :
  exists s, decodeByteLiteralString (BACKSLASH +:+ "n" +:+ BACKSLASH +:+ "x41bc") = Returns s.
Proof.
  apply decodeByteLiteralString_returns. intros i Hi.
  change (len (BACKSLASH +:+ "n" +:+ BACKSLASH +:+ "x41bc")) with 8 in Hi.
  unfold byteAt. change (len (BACKSLASH +:+ "n" +:+ BACKSLASH +:+ "x41bc")) with 8.
  destruct (Z.leb_spec 0 i); [|discriminate].
  destruct (Z.ltb_spec i 8); [|discriminate]. cbn [andb].
  assert (Hc : i = 5 \/ i = 6 \/ i = 7) by lia.
  destruct Hc as [-> | [-> | ->]]; discriminate.
Defined.

(** ** More on the event decoder *)

Lemma splitFrom_nonempty sep s : forall skip cur, splitFrom sep skip cur s <> [].
Proof.
  induction s as [|a s IH]; intros skip cur; cbn [splitFrom]; [discriminate|].
  destruct skip; [|apply IH].
  destruct (String.prefix sep (String a s)); [discriminate | apply IH].
Qed.

Lemma Split_first s sep : exists p0 rest, Split s sep = p0 :: rest.
Proof.
  unfold Split. pose proof (splitFrom_nonempty sep s 0%nat EmptyString) as H.
  destruct (splitFrom sep 0 EmptyString s) as [|p0 rest]; [congruence | eauto].
Qed.

Lemma decodeEvent_message (mgs : message) (p0 : string) (rest : list string) :
  Split (data mgs) " " = p0 :: rest ->
  HasPrefix p0 "CTRL-" = false ->
  decodeEvent mgs = Returns (Some (mkWPAEvent "MESSAGE" ∅ (data mgs))).
Proof.
  intros Hs Hp. unfold decodeEvent. rewrite Hs.
  destruct (Z.eqb_spec (Z.of_nat (length (p0 :: rest))) 0) as [H | _];
    [cbn [length] in H; lia|].
  pose proof (index_lookup (p0 :: rest) 0 p0 eq_refl) as H0.
  change (Z.of_nat 0) with 0 in H0. rewrite H0. cbn [bind].
  now rewrite Index_zero, Hp.
Qed.

(** Every message from the unsolicited channel becomes exactly one
    event, which carries the payload unchanged as its [Line]; the decoder
    neither skips a message nor panics. *)
Theorem decodeEvent_one_event (mgs : message) :
  exists e, decodeEvent mgs = Returns (Some e) /\ Line e = data mgs.
Proof.
  destruct (Split_first (data mgs) " ") as (p0 & rest & Hs).
  destruct (HasPrefix p0 "CTRL-") eqn:Hp.
  - eexists. split; [exact (decodeEvent_structured mgs p0 rest Hs Hp) | reflexivity].
  - eexists. split; [exact (decodeEvent_message mgs p0 rest Hs Hp) | reflexivity].
Qed.

Lemma first_token_prefix s p0 rest :
  Split s " " = p0 :: rest -> HasPrefix p0 "CTRL-" = HasPrefix s "CTRL-".
Proof.
  unfold Split. change " " with (String " "%char EmptyString).
  rewrite splitFrom_char, !append_nil_l.
  destruct (cut " " s) as [[x y]|] eqn:E; [|now intros [= <- _]].
  intros [= <- _]. apply cut_Some in E as [-> Hx]. unfold HasPrefix.
  destruct x as [|a [|b [|c [|d [|e x]]]]]; rewrite ?append_cons, ?append_nil_l;
    cbn [String.prefix mentions] in *;
    repeat match goal with
           | |- context [ascii_dec ?u ?v] => destruct (ascii_dec u v); try reflexivity
           end;
    subst; try discriminate; rewrite ?prefix_nil; try reflexivity.
Qed.

(** A payload that does not start with CTRL- becomes the event MESSAGE
    with the payload as its line and without arguments. *)
Theorem decodeEvent_opaque_line (mgs : message) :
  HasPrefix (data mgs) "CTRL-" = false ->
  decodeEvent mgs = Returns (Some (mkWPAEvent "MESSAGE" ∅ (data mgs))).
Proof.
  intros Hp. destruct (Split_first (data mgs) " ") as (p0 & rest & Hs).
  apply (decodeEvent_message mgs p0 rest Hs).
  now rewrite (first_token_prefix _ _ _ Hs).
Qed.

Lemma decodeEvent_opaque_line_witness :
  decodeEvent (Message 3 "WPS-AP-AVAILABLE key=1" Nil)
  = Returns (Some (mkWPAEvent "MESSAGE" ∅ "WPS-AP-AVAILABLE key=1")).
Proof.
  apply (decodeEvent_opaque_line (Message 3 "WPS-AP-AVAILABLE key=1" Nil)). reflexivity.
Defined.

(** The arguments of an event come from the payload: an entry is the
    two sides of a token after the first that has exactly one '=', so
    neither a key nor a value ever contains '='. *)
Theorem decodeEvent_arguments_from_tokens (mgs : message) (e : WPAEvent) (k v : string) :
  decodeEvent mgs = Returns (Some e) ->
  Arguments e !! k = Some v ->
  (k +:+ "=" +:+ v) ∈ tail (Split (data mgs) " ") /\
  mentions "=" k = false /\ mentions "=" v = false.
Proof.
  intros He Hkv. destruct (Split_first (data mgs) " ") as (p0 & rest & Hs).
  rewrite Hs. cbn [tail].
  destruct (HasPrefix p0 "CTRL-") eqn:Hp.
  - rewrite (decodeEvent_structured mgs p0 rest Hs Hp) in He. injection He as <-.
    cbn [Arguments] in Hkv. apply argumentsOf_lookup in Hkv
      as [(pre & t & post & -> & Ht & _) | [Hm _]].
    + apply keyValue_spec in Ht as (-> & Hk & Hv). split; [|auto].
      apply elem_of_app. right. apply elem_of_cons. now left.
    + rewrite lookup_empty in Hm. discriminate.
  - rewrite (decodeEvent_message mgs p0 rest Hs Hp) in He. injection He as <-.
    cbn [Arguments] in Hkv. rewrite lookup_empty in Hkv. discriminate.
Qed.

Lemma decodeEvent_arguments_from_tokens_witness :
  "id=0" ∈ tail (Split "CTRL-EVENT-SSID-REENABLED id=0 ssid=home" " ") /\
  mentions "=" "id" = false /\ mentions "=" "0" = false.
Proof.
  apply (decodeEvent_arguments_from_tokens
           (Message 3 "CTRL-EVENT-SSID-REENABLED id=0 ssid=home" Nil)
           (mkWPAEvent "SSID-REENABLED" (<["ssid" := "home"]> (<["id" := "0"]> ∅))
                       "CTRL-EVENT-SSID-REENABLED id=0 ssid=home")
           "id" "0").
  - vm_compute. reflexivity.
  - vm_compute. reflexivity.
Defined.

(** ** The read loop and the event decoder together *)

Lemma route_tagged d rest :
  priorityDigit d ->
  route (String "<" (String d (String ">" rest)))
  = Returns (unsolicited, Message (byteval d - 48) rest Nil).
Proof.
  intros Hd. unfold route.
  assert (H3 : (3 <=? len (String "<" (String d (String ">" rest)))) = true).
  { rewrite !len_String. pose proof (len_nonneg rest). apply Z.leb_le. lia. }
  rewrite H3, byteAt_head. cbn [bind Ascii.eqb Bool.eqb].
  rewrite byteAt_2. cbn [bind]. rewrite Ascii.eqb_refl, byteAt_1. cbn [bind].
  rewrite (proj2 (priorityDigit_switch d) Hd), slice_from_3. cbn [bind].
  destruct Hd as [-> | [-> | [-> | [-> | ->]]]]; reflexivity.
Qed.

Lemma route_returns buf :
  exists c m,
    route buf = Returns (c, m) /\ err m = Nil /\ 0 <= priority m <= 4 /\
    (c = solicited -> priority m = 2 /\ data m = buf) /\
    (c = unsolicited -> String "<" (String (byteof (48 + priority m))
                                       (String ">" (data m))) = buf).
Proof.
  assert (Hsol : exists c m,
    Returns (solicited, Message 2 buf Nil) = Returns (c, m) /\ err m = Nil /\
    0 <= priority m <= 4 /\
    (c = solicited -> priority m = 2 /\ data m = buf) /\
    (c = unsolicited -> String "<" (String (byteof (48 + priority m))
                                       (String ">" (data m))) = buf)).
  { eexists _, _. split; [reflexivity|]. cbn. repeat split; (lia || discriminate). }
  destruct buf as [|a [|b [|c rest]]]; try exact Hsol.
  unfold route.
  assert (H3 : (3 <=? len (String a (String b (String c rest)))) = true).
  { rewrite !len_String. pose proof (len_nonneg rest). apply Z.leb_le. lia. }
  rewrite H3, byteAt_head. cbn [bind].
  destruct (Ascii.eqb_spec a "<") as [-> | Ha]; [|exact Hsol].
  rewrite byteAt_2. cbn [bind].
  destruct (Ascii.eqb_spec c ">") as [-> | Hc]; [|exact Hsol].
  rewrite byteAt_1. cbn [bind].
  destruct (existsb _ _) eqn:Hsw; [|exact Hsol].
  apply priorityDigit_switch in Hsw. rewrite slice_from_3. cbn [bind].
  eexists _, _. split; [reflexivity|]. cbn [err priority data].
  destruct Hsw as [-> | [-> | [-> | [-> | ->]]]]; cbn;
    repeat split; (lia || discriminate || reflexivity).
Qed.

(** A tagged datagram reaches the event stream without its tag: the
    event decoded from the message the read loop forwards has the
    datagram after its first three bytes as its line. *)
Theorem tagged_datagram_becomes_event d payload :
  priorityDigit d ->
  exists m e,
    route (String "<" (String d (String ">" payload))) = Returns (unsolicited, m) /\
    decodeEvent m = Returns (Some e) /\ Line e = payload.
Proof.
  intros Hd. exists (Message (byteval d - 48) payload Nil).
  destruct (Split_first payload " ") as (p0 & rest & Hs).
  assert (He : exists e,
    decodeEvent (Message (byteval d - 48) payload Nil) = Returns (Some e)
    /\ Line e = payload).
  { destruct (HasPrefix p0 "CTRL-") eqn:Hp.
    - eexists. split;
        [exact (decodeEvent_structured (Message (byteval d - 48) payload Nil)
                  p0 rest Hs Hp) | reflexivity].
    - eexists. split;
        [exact (decodeEvent_message (Message (byteval d - 48) payload Nil)
                  p0 rest Hs Hp) | reflexivity]. }
  destruct He as (e & He & Hl).
  exists e. split; [exact (route_tagged d payload Hd)|]. split; [exact He | exact Hl].
Qed.

Lemma tagged_datagram_becomes_event_witness :
  exists m e,
    route "<3>CTRL-EVENT-SCAN-RESULTS" = Returns (unsolicited, m) /\
    decodeEvent m = Returns (Some e) /\ Line e = "CTRL-EVENT-SCAN-RESULTS".
Proof.
  apply (tagged_datagram_becomes_event "3" "CTRL-EVENT-SCAN-RESULTS").
  unfold priorityDigit. tauto.
Defined.

(** In a round of the read loop, a message sent on the unsolicited
    channel carries no error and a priority from 0 to 4; a message that
    carries an error is sent on the solicited channel, without data; and
    a peek that would block sends nothing. *)
Theorem readRound_routes_errors_to_solicited
    (recv : Z * error) (closing : bool) (read : string * error) (sel : selected) :
  (forall c m,
      readRound recv closing read sel = Returns (Continued (Some (c, m))) ->
      (c = unsolicited -> err m = Nil /\ 0 <= priority m <= 4) /\
      (err m <> Nil -> c = solicited /\ data m = EmptyString))
  /\ (isEWOULDBLOCK (snd recv) = true ->
      readRound recv closing read sel
      = Returns (if closing then Returned else Continued None)).
Proof.
  unfold readRound. destruct recv as [n e1], read as [buf e2]. cbn [fst snd]. split.
  - intros c m.
    assert (Herr : forall e, e <> Nil ->
      Returns (offer sel solicited (Message 0 EmptyString e))
        = Returns (Continued (Some (c, m))) ->
      (c = unsolicited -> err m = Nil /\ 0 <= priority m <= 4) /\
      (err m <> Nil -> c = solicited /\ data m = EmptyString)).
    { intros e He H. destruct sel; cbn in H; [|discriminate].
      injection H as <- <-. split; [discriminate | auto]. }
    destruct e1.
    + destruct e2; try (apply Herr; discriminate).
      destruct (route_returns buf) as (c' & m' & -> & Hm & Hp & _). cbn [bind fst snd].
      destruct sel; cbn [offer]; [|discriminate]. intros [= <- <-].
      split; [auto | congruence].
    + destruct (isEWOULDBLOCK _); [destruct closing; discriminate|].
      apply Herr. discriminate.
    + destruct (isEWOULDBLOCK _); [destruct closing; discriminate|].
      apply Herr. discriminate.
    + destruct (isEWOULDBLOCK _); [destruct closing; discriminate|].
      apply Herr. discriminate.
    + destruct (isEWOULDBLOCK _); [destruct closing; discriminate|].
      apply Herr. discriminate.
    + destruct (isEWOULDBLOCK _); [destruct closing; discriminate|].
      apply Herr. discriminate.
  - intros Hw. destruct e1; try discriminate Hw. cbn [isEWOULDBLOCK] in *. now rewrite Hw.
Qed.

Lemma readRound_routes_errors_to_solicited_witness :
  ((solicited = unsolicited -> Errno 104 = Nil /\ 0 <= 0 <= 4) /\
   (Errno 104 <> Nil -> solicited = solicited /\ EmptyString = EmptyString))
  /\ readRound (0, EWOULDBLOCK) false (EmptyString, Nil) SendTaken
     = Returns (Continued None).
Proof.
  split.
  - apply (proj1 (readRound_routes_errors_to_solicited
             (5, Nil) false (EmptyString, Errno 104) SendTaken)
             solicited (Message 0 EmptyString (Errno 104))).
    reflexivity.
  - apply (proj2 (readRound_routes_errors_to_solicited
             (0, EWOULDBLOCK) false (EmptyString, Nil) SendTaken)).
    reflexivity.
Defined.

(** [Ping] answers [nil] exactly when [cmd] answers no error and the
    reply is the line PONG with its newline; an error of [cmd] is handed
    on, and any other reply becomes a [ParseError] that carries it. *)
Theorem Ping_requires_PONG (Write : string -> error) (await : string -> awaited) :
  let resp := fst (cmd Write await "PING") in
  let e := snd (cmd Write await "PING") in
  (Ping Write await = Nil <-> e = Nil /\ resp = "PONG" +:+ LF)
  /\ (e <> Nil -> Ping Write await = e)
  /\ (e = Nil -> resp <> "PONG" +:+ LF -> Ping Write await = ParseError resp Nil).
Proof.
  unfold Ping. destruct (cmd Write await "PING") as [resp e]. cbn [fst snd].
  destruct (Compare resp ("PONG" +:+ LF) =? 0) eqn:Hc.
  - apply Compare_zero in Hc. subst resp.
    destruct e; (split; [|split]); try congruence; intuition congruence.
  - assert (Hne : resp <> "PONG" +:+ LF).
    { intros ->. rewrite (proj2 (Compare_zero _ _) eq_refl) in Hc. discriminate. }
    destruct e; (split; [|split]); try congruence; intuition congruence.
Qed.

Lemma Ping_requires_PONG_witness :
  Ping (fun _ => Nil) (fun _ => Received (Message 2 ("PONG" +:+ LF) Nil)) = Nil
  /\ Ping (fun _ => Nil) (fun _ => TimedOut) = errorString "Timed out waiting for response"
  /\ Ping (fun _ => Nil) (fun _ => Received (Message 2 ("OK" +:+ LF) Nil))
     = ParseError ("OK" +:+ LF) Nil.
Proof.
  split; [|split].
  - apply (proj1 (Ping_requires_PONG (fun _ => Nil)
      (fun _ => Received (Message 2 ("PONG" +:+ LF) Nil)))).
    split; reflexivity.
  - apply (proj1 (proj2 (Ping_requires_PONG (fun _ => Nil) (fun _ => TimedOut)))).
    discriminate.
  - apply (proj2 (proj2 (Ping_requires_PONG (fun _ => Nil)
      (fun _ => Received (Message 2 ("OK" +:+ LF) Nil))))).
    + reflexivity.
    + discriminate.
Defined.

(** ** More on the table parsers *)

Lemma mentions_append c s t : mentions c (s +:+ t) = mentions c s || mentions c t.
Proof.
  induction s as [|a s IH]; [reflexivity|].
  rewrite append_cons. cbn [mentions]. rewrite IH. now rewrite orb_assoc.
Qed.

Lemma splitFrom_char_pieces c (d : ascii) (n : nat) : forall s cur,
  (String.length s <= n)%nat ->
  mentions d cur = false -> mentions d s = false ->
  Forall (fun f => mentions d f = false) (splitFrom (String c EmptyString) 0 cur s).
Proof.
  induction n as [|n IH]; intros s cur Hn Hcur Hs.
  - destruct s; [|cbn in Hn; lia]. cbn. constructor; [exact Hcur | constructor].
  - rewrite splitFrom_char. destruct (cut c s) as [[x y]|] eqn:E.
    + apply cut_Some in E as [-> _].
      rewrite mentions_append in Hs. apply orb_false_iff in Hs as [Hx Hy].
      cbn [mentions] in Hy. apply orb_false_iff in Hy as [_ Hy].
      constructor.
      * rewrite mentions_append, Hcur, Hx. reflexivity.
      * apply IH; [|reflexivity | exact Hy].
        rewrite length_append in Hn. cbn [String.length] in Hn. lia.
    + constructor; [|constructor]. now rewrite mentions_append, Hcur, Hs.
Qed.

(** The fields of a row without a backslash have none. *)
Lemma Split_TAB_plain ln :
  mentions (ascii_of_nat 92) ln = false ->
  Forall (fun f => mentions (ascii_of_nat 92) f = false) (Split ln TAB).
Proof.
  intros H. unfold Split, TAB.
  apply (splitFrom_char_pieces _ _ (String.length ln)); auto.
Qed.

Lemma index_Forall {A} (P : A -> Prop) (l : list A) i x :
  Forall P l -> index l i = Returns x -> P x.
Proof.
  intros HP. unfold index. destruct (_ && _); [|discriminate].
  destruct (l !! Z.to_nat i) as [y|] eqn:E; [|discriminate].
  intros [= <-]. eapply Forall_lookup_1; eauto.
Qed.

Lemma guarded_read {A} (fields : list string) (c n : Z) (k : string -> A) (d : A) :
  c = -1 \/ 0 <= c < n -> n <= Z.of_nat (length fields) ->
  exists a,
    (if negb (c =? -1) then do f <- index fields c; Returns (k f) else Returns d)
    = Returns a.
Proof.
  intros [-> | Hc] Hn; [cbn; eauto|].
  destruct (Z.eqb_spec c (-1)); [lia|]. cbn [negb].
  destruct (index_within fields c) as [f ->]; [lia|]. cbn. eauto.
Qed.

Lemma decodeByteLiteralString_itself s :
  mentions (ascii_of_nat 92) s = false -> decodeByteLiteralString s = Returns s.
Proof.
  intros H. unfold decodeByteLiteralString.
  apply (decodeLoop_written s s (written_itself s H) _ _ EmptyString 0 EmptyString);
    [reflexivity | reflexivity | unfold len; lia].
Qed.

(** A row with a field for every column of the header and without a
    backslash is read to the end: it gives a record, or an error that
    carries its line. *)
Lemma Scan_row_returns columns ln fields :
  Z.of_nat (length columns) <= Z.of_nat (length fields) ->
  Forall (fun f => mentions (ascii_of_nat 92) f = false) fields ->
  exists s,
    Scan.row (Scan.header columns 0 Scan.init) ln fields = Returns s /\
    forall e, s = Scan.Reject e -> exists inner, e = ParseError ln inner.
Proof.
  intros Hn Hplain. rewrite Scan_header. unfold Scan.row.
  cbn [Scan.bssidCol Scan.freqCol Scan.rssiCol Scan.flagsCol Scan.ssidCol Scan.init].
  unfold HardwareAddr.
  assert (Hrej : forall inner, exists s,
    Returns (Scan.Reject (ParseError ln inner)) = Returns s /\
    forall e, s = Scan.Reject e -> exists inner, e = ParseError ln inner).
  { intros inner. eexists. split; [reflexivity|]. intros e [= <-]. eauto. }
  destruct (guarded_read (A := string * error) fields _ _ ParseMAC (EmptyString, Nil)
              (lastIndex_column "bssid" columns) Hn) as [[hw e1] ->].
  cbn [bind fst snd]. destruct e1; try apply Hrej.
  destruct (guarded_read fields _ _ Atoi (0, Nil)
              (lastIndex_column "frequency" columns) Hn) as [[v2 e2] ->].
  cbn [bind fst snd]. destruct e2; try apply Hrej.
  destruct (guarded_read fields _ _ Atoi (0, Nil)
              (lastIndex_column "signal level" columns) Hn) as [[v3 e3] ->].
  cbn [bind fst snd]. destruct e3; try apply Hrej.
  assert (Hflags : exists fl,
    (if negb (lastIndex "flags" columns 0 (-1) =? -1)
     then do f <- index fields (lastIndex "flags" columns 0 (-1)); parseFlags f
     else Returns []) = Returns fl).
  { destruct (lastIndex_column "flags" columns) as [-> | Hc]; [cbn; eauto|].
    destruct (Z.eqb_spec (lastIndex "flags" columns 0 (-1)) (-1)); [lia|]. cbn [negb].
    destruct (index_within fields (lastIndex "flags" columns 0 (-1))) as [f ->]; [lia|].
    cbn [bind]. apply parseFlags_returns. }
  destruct Hflags as [fl ->]. cbn [bind].
  assert (Hssid : exists name,
    (if negb (lastIndex "ssid" columns 0 (-1) =? -1)
     then do f <- index fields (lastIndex "ssid" columns 0 (-1));
          decodeByteLiteralString f
     else Returns EmptyString) = Returns name).
  { destruct (lastIndex_column "ssid" columns) as [-> | Hc]; [cbn; eauto|].
    destruct (Z.eqb_spec (lastIndex "ssid" columns 0 (-1)) (-1)); [lia|]. cbn [negb].
    destruct (index_within fields (lastIndex "ssid" columns 0 (-1))) as [f Hf]; [lia|].
    rewrite Hf. cbn [bind]. exists f. apply decodeByteLiteralString_itself.
    exact (index_Forall _ _ _ _ Hplain Hf). }
  destruct Hssid as [name ->]. cbn [bind].
  eexists. split; [reflexivity|]. discriminate.
Qed.

Lemma verdicts st (P : string -> Scan.step -> Prop) rows :
  Forall (fun ln => exists s, verdict st ln = Returns s /\ P ln s) rows ->
  exists steps,
    Forall2 (fun ln s => verdict st ln = Returns s) rows steps /\
    Forall2 P rows steps.
Proof.
  induction 1 as [|ln rows (s & Hs & HP) _ (steps & H1 & H2)].
  - exists []. split; constructor.
  - exists (s :: steps). split; constructor; assumption.
Qed.

Lemma errors_of_rows rows steps :
  Forall2 (fun ln s => forall e, s = Scan.Reject e -> exists inner, e = ParseError ln inner)
          rows steps ->
  Forall (fun e => exists ln inner, ln ∈ rows /\ e = ParseError ln inner)
         (omap errorOf steps).
Proof.
  induction 1 as [|ln s rows steps Hs _ IH]; [constructor|].
  assert (Htail : Forall (fun e => exists ln0 inner, ln0 ∈ ln :: rows /\ e = ParseError ln0 inner)
                         (omap errorOf steps)).
  { eapply Forall_impl; [exact IH|]. intros e (ln0 & inner & Hin & ->).
    exists ln0, inner. split; [apply elem_of_cons; now right | reflexivity]. }
  destruct s as [r | e]; cbn; [exact Htail|].
  constructor; [|exact Htail].
  destruct (Hs e eq_refl) as [inner ->]. exists ln, inner.
  split; [apply elem_of_cons; now left | reflexivity].
Qed.

(** When no data row has a backslash and every row has either a field
    for every column of the header or fewer fields than the highest
    column index, [parseScanResults] returns, every row gives one
    record or one error, and every error is a [ParseError] with the text
    of a row. *)
Theorem parseScanResults_one_result_per_row resp hdr rows :
  ScanLines resp = hdr :: rows ->
  Forall (fun ln =>
            mentions (ascii_of_nat 92) ln = false /\
            (length (Split ln TAB) < length (Split hdr " / ") - 1
             \/ length (Split hdr " / ") <= length (Split ln TAB))%nat) rows ->
  exists res errs,
    parseScanResults resp = Returns (res, errs) /\
    (length res + length errs = length rows)%nat /\
    Forall (fun e => exists ln inner, ln ∈ rows /\ e = ParseError ln inner) errs.
Proof.
  intros Hs Hrows. unfold parseScanResults. rewrite Hs.
  set (st := Scan.header (Split hdr " / ") 0 Scan.init).
  assert (Hmax : Scan.maxCol st = Z.of_nat (length (Split hdr " / ")) - 1).
  { unfold st. rewrite Scan_header. cbn [Scan.maxCol Scan.init]. apply last_column. }
  destruct (verdicts st
              (fun ln s => forall e, s = Scan.Reject e -> exists inner, e = ParseError ln inner)
              rows) as (steps & Hv & He).
  { eapply Forall_impl; [exact Hrows|]. intros ln [Hplain Hlen]. cbn beta.
    unfold verdict. cbv zeta. rewrite Hmax.
    destruct (Z.ltb_spec (Z.of_nat (length (Split ln TAB)))
                (Z.of_nat (length (Split hdr " / ")) - 1)).
    - eexists. split; [reflexivity|]. intros e [= <-]. eauto.
    - apply Scan_row_returns; [lia | now apply Split_TAB_plain]. }
  exists (omap recordOf steps), (omap errorOf steps).
  rewrite (Scan_rows_accounts st rows steps [] [] Hv). split; [reflexivity|]. split.
  - rewrite steps_account. symmetry. eapply Forall2_length; eauto.
  - now apply errors_of_rows.
Qed.

Lemma parseScanResults_one_result_per_row_witness :
  exists res errs,
    parseScanResults
      ("bssid / frequency / signal level / flags / ssid" +:+ LF
       +:+ "00:11:22:33:44:55" +:+ TAB +:+ "2412" +:+ TAB +:+ "-40" +:+ TAB
       +:+ "[ESS]" +:+ TAB +:+ "home" +:+ LF
       +:+ "zz" +:+ TAB +:+ "2412" +:+ LF
       +:+ "00:11:22:33:44:55" +:+ TAB +:+ "24x2" +:+ TAB +:+ "-40" +:+ TAB
       +:+ "[ESS]" +:+ TAB +:+ "office" +:+ LF)
    = Returns (res, errs) /\
    (length res + length errs = 3)%nat.
Proof.
  destruct (parseScanResults_one_result_per_row
    ("bssid / frequency / signal level / flags / ssid" +:+ LF
     +:+ "00:11:22:33:44:55" +:+ TAB +:+ "2412" +:+ TAB +:+ "-40" +:+ TAB
     +:+ "[ESS]" +:+ TAB +:+ "home" +:+ LF
     +:+ "zz" +:+ TAB +:+ "2412" +:+ LF
     +:+ "00:11:22:33:44:55" +:+ TAB +:+ "24x2" +:+ TAB +:+ "-40" +:+ TAB
     +:+ "[ESS]" +:+ TAB +:+ "office" +:+ LF)
    "bssid / frequency / signal level / flags / ssid"
    ["00:11:22:33:44:55" +:+ TAB +:+ "2412" +:+ TAB +:+ "-40" +:+ TAB
       +:+ "[ESS]" +:+ TAB +:+ "home";
     "zz" +:+ TAB +:+ "2412";
     "00:11:22:33:44:55" +:+ TAB +:+ "24x2" +:+ TAB +:+ "-40" +:+ TAB
       +:+ "[ESS]" +:+ TAB +:+ "office"]
    eq_refl) as (res & errs & H & Hlen & _).
  - constructor; [split; [reflexivity | right; vm_compute; lia]|].
    constructor; [split; [reflexivity | left; vm_compute; lia]|].
    constructor; [split; [reflexivity | right; vm_compute; lia]|].
    constructor.
  - exists res, errs. split; [exact H | exact Hlen].
Defined.

Lemma Networks_rows_all st rows : forall res,
  Forall (fun ln => (Z.of_nat (length (Split ln TAB)) <? Networks.maxCol st) = false
                    /\ exists x, Networks.row st (Split ln TAB) = Returns x) rows ->
  exists recs,
    Networks.rows st rows res = Returns (res ++ recs, Nil) /\
    length recs = length rows.
Proof.
  induction rows as [|ln rows IH]; intros res H.
  - exists []. cbn. now rewrite app_nil_r.
  - apply Forall_cons in H as [[Hln [x Hx]] H].
    cbn [Networks.rows]. rewrite Hln, Hx. cbn [bind].
    destruct (IH (res ++ [x]) H) as (recs & -> & Hlen).
    exists (x :: recs). rewrite <- app_assoc. cbn. split; [reflexivity | lia].
Qed.

(** When every data row has a field for every column of the header,
    [parseListNetworksResult] returns one record per row and no error. *)
Theorem parseListNetworksResult_one_record_per_row resp hdr rows :
  ScanLines resp = hdr :: rows ->
  Forall (fun ln => length (Split hdr " / ") <= length (Split ln TAB))%nat rows ->
  exists res,
    parseListNetworksResult resp = Returns (res, Nil) /\ length res = length rows.
Proof.
  intros Hs Hrows. unfold parseListNetworksResult. rewrite Hs.
  assert (Hmax : Networks.maxCol (Networks.header (Split hdr " / ") 0 Networks.init)
                 = Z.of_nat (length (Split hdr " / ")) - 1).
  { rewrite Networks_header. cbn [Networks.maxCol Networks.init]. apply last_column. }
  destruct (Networks_rows_all (Networks.header (Split hdr " / ") 0 Networks.init) rows [])
    as (recs & -> & Hlen); [|eauto].
  eapply Forall_impl; [exact Hrows|]. intros ln Hln. cbn beta in *. split.
  - rewrite Hmax. apply Z.ltb_ge. lia.
  - apply Networks_row_returns. lia.
Qed.

Lemma parseListNetworksResult_one_record_per_row_witness :
  exists res,
    parseListNetworksResult
      ("network id / ssid / bssid / flags" +:+ LF
       +:+ "0" +:+ TAB +:+ "home" +:+ TAB +:+ "any" +:+ TAB +:+ "[CURRENT]" +:+ LF
       +:+ "1" +:+ TAB +:+ "office" +:+ TAB +:+ "any" +:+ TAB +:+ "[DISABLED]" +:+ LF)
    = Returns (res, Nil) /\ length res = 2%nat.
Proof.
  apply (parseListNetworksResult_one_record_per_row _
           "network id / ssid / bssid / flags"
           ["0" +:+ TAB +:+ "home" +:+ TAB +:+ "any" +:+ TAB +:+ "[CURRENT]";
            "1" +:+ TAB +:+ "office" +:+ TAB +:+ "any" +:+ TAB +:+ "[DISABLED]"]).
  - reflexivity.
  - constructor; [vm_compute; lia|]. constructor; [vm_compute; lia|]. constructor.
Defined.

Lemma roundtrip_unless_final_backslash_witness :
  decodeByteLiteralString
    (encodeByteLiteral ("Caf" +:+ String (byteof 195) (String (byteof 169) EmptyString)
                        +:+ BACKSLASH +:+ "1"))
  = Returns ("Caf" +:+ String (byteof 195) (String (byteof 169) EmptyString)
             +:+ BACKSLASH +:+ "1").
Proof. apply roundtrip_unless_final_backslash. discriminate. Defined.

Lemma parseListNetworksResult_aborts_at_short_row_witness :
  parseListNetworksResult
    ("network id / ssid / bssid / flags" +:+ LF
     +:+ "0" +:+ TAB +:+ "home" +:+ TAB +:+ "any" +:+ TAB +:+ "[CURRENT]" +:+ LF
     +:+ "1" +:+ TAB +:+ "office" +:+ LF
     +:+ "2" +:+ TAB +:+ "lab" +:+ TAB +:+ "any" +:+ TAB +:+ "" +:+ LF)
  = Returns ([], ParseError ("1" +:+ TAB +:+ "office") Nil).
Proof.
  apply (parseListNetworksResult_aborts_at_short_row _
           "network id / ssid / bssid / flags"
           ["0" +:+ TAB +:+ "home" +:+ TAB +:+ "any" +:+ TAB +:+ "[CURRENT]"]
           ("1" +:+ TAB +:+ "office")
           ["2" +:+ TAB +:+ "lab" +:+ TAB +:+ "any" +:+ TAB +:+ ""]).
  - vm_compute. reflexivity.
  - constructor; [vm_compute; lia | constructor].
  - vm_compute. lia.
Defined.

(** Column order does not matter for a header of any names, known or
    not, as long as none is repeated: moving the columns of the header
    and of every data row by one permutation leaves both table parsers
    with the same outcome and the same records. *)
Theorem tables_with_any_header_permuted (p : list nat) (resp resp' : string) :
  NoDup (headerColumns resp) ->
  Permutation p (seq 0 (length (headerColumns resp))) ->
  columnsPermuted p resp resp' ->
  outcome_map fst (parseScanResults resp') = outcome_map fst (parseScanResults resp)
  /\ outcome_map fst (parseListNetworksResult resp')
     = outcome_map fst (parseListNetworksResult resp).
Proof.
  intros Hnd Hp Hperm. split.
  - now apply (parseScanResults_permuted p).
  - now apply (parseListNetworksResult_permuted p).
Qed.

Lemma tables_with_any_header_permuted_witness :
  outcome_map fst (parseScanResults
    ("age / ssid / bssid" +:+ LF
     +:+ "12" +:+ TAB +:+ "home" +:+ TAB +:+ "00:11:22:33:44:55" +:+ LF))
  = outcome_map fst (parseScanResults
    ("bssid / ssid / age" +:+ LF
     +:+ "00:11:22:33:44:55" +:+ TAB +:+ "home" +:+ TAB +:+ "12" +:+ LF)).
Proof.
  apply (tables_with_any_header_permuted [2; 1; 0]%nat
    ("bssid / ssid / age" +:+ LF
     +:+ "00:11:22:33:44:55" +:+ TAB +:+ "home" +:+ TAB +:+ "12" +:+ LF)
    ("age / ssid / bssid" +:+ LF
     +:+ "12" +:+ TAB +:+ "home" +:+ TAB +:+ "00:11:22:33:44:55" +:+ LF)).
  - apply (bool_decide_unpack _). vm_compute. exact I.
  - assert (E : length (headerColumns
                  ("bssid / ssid / age" +:+ LF
                   +:+ "00:11:22:33:44:55" +:+ TAB +:+ "home" +:+ TAB +:+ "12" +:+ LF))
                = 3%nat) by (vm_compute; reflexivity).
    rewrite E. change (seq 0 3) with [0; 1; 2]%nat.
    apply (Permutation_trans (l' := [1; 2; 0]%nat)).
    + apply perm_swap.
    + exact (Permutation_app_comm [1; 2]%nat [0%nat]).
  - exists "bssid / ssid / age", "age / ssid / bssid",
           ["00:11:22:33:44:55" +:+ TAB +:+ "home" +:+ TAB +:+ "12"],
           ["12" +:+ TAB +:+ "home" +:+ TAB +:+ "00:11:22:33:44:55"].
    split; [vm_compute; reflexivity|]. split; [vm_compute; reflexivity|]. split.
    + moved.
    + constructor; [moved | constructor].
Defined.

(** ** Flags *)

Lemma splitFrom_piece (p : string) : forall cur rest,
  mentions "]" p = false ->
  splitFrom "][" 0 cur (p +:+ rest) = splitFrom "][" 0 (cur +:+ p) rest.
Proof.
  induction p as [|a p IH]; intros cur rest Hp.
  - now rewrite append_nil_l, append_nil_r.
  - cbn [mentions] in Hp. apply orb_false_iff in Hp as [Ha Hp].
    rewrite append_cons. cbn [splitFrom String.prefix].
    destruct (ascii_dec "]" a) as [<- | _]; [discriminate Ha|].
    rewrite (IH _ _ Hp). now rewrite append_assoc.
Qed.

Lemma Split_concat_brackets flags : forall cur,
  flags <> [] -> Forall (fun f => mentions "]" f = false) flags ->
  splitFrom "][" 0 cur (String.concat "][" flags) =
  match flags with
  | [] => []
  | f :: rest => (cur +:+ f) :: rest
  end.
Proof.
  induction flags as [|f rest IH]; intros cur Hne Hall; [congruence|].
  apply Forall_cons in Hall as [Hf Hall].
  destruct rest as [|g rest].
  - cbn [String.concat]. rewrite <- (append_nil_r f) at 1.
    now rewrite (splitFrom_piece f cur EmptyString Hf).
  - change (String.concat "][" (f :: g :: rest))
      with (f +:+ "][" +:+ String.concat "][" (g :: rest)).
    rewrite (splitFrom_piece f cur _ Hf).
    change ("][" +:+ String.concat "][" (g :: rest))
      with (String "]" (String "[" (String.concat "][" (g :: rest)))).
    remember (String.concat "][" (g :: rest)) as tl.
    cbn [splitFrom String.prefix String.length Nat.sub].
    destruct (ascii_dec "]" "]") as [_ | Hn]; [|congruence].
    destruct (ascii_dec "[" "[") as [_ | Hn]; [|congruence].
    rewrite prefix_nil. subst tl.
    rewrite (IH EmptyString); [|discriminate | exact Hall]. reflexivity.
Qed.

(** [parseFlags] recovers the flags of a bracketed field: a field made
    of one or more flags, each between brackets and none containing a
    closing bracket, is parsed into exactly those flags. *)
Theorem parseFlags_bracketed (flags : list string) :
  flags <> [] -> Forall (fun f => mentions "]" f = false) flags ->
  parseFlags (bracketed flags) = Returns flags.
Proof.
  intros Hne Hall. unfold parseFlags, bracketed.
  set (inner := String.concat "][" flags).
  pose proof (len_nonneg inner) as Hin.
  assert (Hlen : len ("[" +:+ inner +:+ "]") = len inner + 2).
  { rewrite !len_append. change (len "[") with 1. change (len "]") with 1. lia. }
  rewrite Hlen. destruct (Z.leb_spec 2 (len inner + 2)) as [_ | ?]; [|lia].
  change ("[" +:+ inner +:+ "]") with (String "[" (inner +:+ "]")).
  rewrite byteAt_head. cbn [bind]. change (Ascii.eqb "[" "[") with true. cbn iota.
  rewrite (byteAt_in (String "[" (inner +:+ "]")) ("[" +:+ inner) "]" EmptyString
             (len inner + 2 - 1)).
  2:{ now rewrite append_assoc. }
  2:{ rewrite len_append. change (len "[") with 1. lia. }
  cbn [bind]. change (Ascii.eqb "]" "]") with true. cbn iota.
  replace (len inner + 2 - 1) with (1 + len inner) by lia.
  rewrite (slice_in (String "[" (inner +:+ "]")) "[" inner "]" 1 (len inner)
             eq_refl eq_refl eq_refl).
  cbn [bind]. unfold Split, inner.
  rewrite (Split_concat_brackets flags EmptyString Hne Hall).
  destruct flags; [congruence | reflexivity].
Qed.

Lemma parseFlags_bracketed_witness :
  parseFlags "[WPA2-PSK-CCMP][WPS][ESS]" = Returns ["WPA2-PSK-CCMP"; "WPS"; "ESS"].
Proof.
  apply (parseFlags_bracketed ["WPA2-PSK-CCMP"; "WPS"; "ESS"]).
  - discriminate.
  - constructor; [reflexivity|]. constructor; [reflexivity|].
    constructor; [reflexivity | constructor].
Defined.

(** ** Decimal numbers *)

Lemma digitsValue_append s t : forall a,
  digitsValue (s +:+ t) a =
  match digitsValue s a with
  | Some v => digitsValue t v
  | None => None
  end.
Proof.
  induction s as [|c s IH]; intros a; [reflexivity|].
  rewrite append_cons. cbn [digitsValue]. destruct (isDigit c); [apply IH | reflexivity].
Qed.

Lemma digits_acc fuel : forall n acc,
  digits fuel n acc = digits fuel n EmptyString +:+ acc.
Proof.
  induction fuel as [|fuel IH]; intros n acc; [reflexivity|].
  cbn [digits]. destruct (n <? 10); [reflexivity|].
  rewrite (IH (n / 10) (String _ acc)), (IH (n / 10) (String _ EmptyString)).
  now rewrite append_assoc.
Qed.

Lemma digit_char m :
  0 <= m < 10 ->
  isDigit (byteof (48 + m)) = true /\ byteval (byteof (48 + m)) - 48 = m.
Proof.
  intros H.
  assert (Hm : m = 0 \/ m = 1 \/ m = 2 \/ m = 3 \/ m = 4 \/
               m = 5 \/ m = 6 \/ m = 7 \/ m = 8 \/ m = 9) by lia.
  repeat (destruct Hm as [-> | Hm]; [split; reflexivity|]). subst. split; reflexivity.
Qed.

Lemma digitsValue_digits fuel : forall n,
  0 <= n < 10 ^ Z.of_nat fuel -> digitsValue (digits fuel n EmptyString) 0 = Some n.
Proof.
  induction fuel as [|fuel IH]; intros n Hn.
  - change (10 ^ Z.of_nat 0) with 1 in Hn. assert (n = 0) as -> by lia. reflexivity.
  - rewrite Nat2Z.inj_succ, Z.pow_succ_r in Hn by lia.
    assert (Hd : 0 <= n mod 10 < 10) by (apply Z.mod_pos_bound; lia).
    destruct (digit_char (n mod 10) Hd) as [H1 H2].
    cbn [digits]. destruct (Z.ltb_spec n 10).
    + cbn [digitsValue]. rewrite H1, H2. rewrite Z.mod_small by lia. reflexivity.
    + rewrite digits_acc, digitsValue_append, IH.
      * cbn [digitsValue]. rewrite H1, H2. f_equal.
        pose proof (Z.div_mod n 10). lia.
      * split; [apply Z.div_pos; lia|]. apply Z.div_lt_upper_bound; lia.
Qed.

Lemma digits_head fuel n :
  exists c r, digits (S fuel) n EmptyString = String c r /\ isDigit c = true.
Proof.
  revert n. induction fuel as [|fuel IH]; intros n.
  - assert (Hd : 0 <= n mod 10 < 10) by (apply Z.mod_pos_bound; lia).
    destruct (digit_char _ Hd) as [H1 _].
    cbn [digits]. destruct (n <? 10); eauto.
  - assert (Hd : 0 <= n mod 10 < 10) by (apply Z.mod_pos_bound; lia).
    destruct (digit_char _ Hd) as [H1 _].
    change (digits (S (S fuel)) n EmptyString)
      with (if n <? 10 then String (byteof (48 + n mod 10)) EmptyString
            else digits (S fuel) (n / 10) (String (byteof (48 + n mod 10)) EmptyString)).
    destruct (n <? 10); [eauto|].
    rewrite digits_acc. destruct (IH (n / 10)) as (c & r & -> & Hc).
    rewrite append_cons. eauto.
Qed.

Lemma digits_mentions c fuel : forall n acc,
  isDigit c = false -> mentions c acc = false ->
  mentions c (digits fuel n acc) = false.
Proof.
  induction fuel as [|fuel IH]; intros n acc Hc Hacc; [exact Hacc|].
  assert (Hd : 0 <= n mod 10 < 10) by (apply Z.mod_pos_bound; lia).
  destruct (digit_char _ Hd) as [H1 _].
  assert (Hacc' : mentions c (String (byteof (48 + n mod 10)) acc) = false).
  { cbn [mentions]. rewrite Hacc, orb_false_r. apply Ascii.eqb_neq.
    intros E. rewrite E in H1. congruence. }
  cbn [digits]. destruct (n <? 10); [exact Hacc' | now apply IH].
Qed.

Lemma Atoi_unsigned c r :
  isDigit c = true ->
  Atoi (String c r) =
  match digitsValue (String c r) 0 with
  | None => (0, NumError "Atoi" (String c r) ErrSyntax)
  | Some v =>
    if v <? - 2 ^ 63 then (- 2 ^ 63, NumError "Atoi" (String c r) ErrRange)
    else if 2 ^ 63 - 1 <? v then (2 ^ 63 - 1, NumError "Atoi" (String c r) ErrRange)
    else (v, Nil)
  end.
Proof.
  intros Hc. destruct c as [[] [] [] [] [] [] [] []]; try discriminate Hc; reflexivity.
Qed.

Lemma Atoi_negative c r :
  Atoi (String "-" (String c r)) =
  match digitsValue (String c r) 0 with
  | None => (0, NumError "Atoi" (String "-" (String c r)) ErrSyntax)
  | Some n =>
    if - n <? - 2 ^ 63
    then (- 2 ^ 63, NumError "Atoi" (String "-" (String c r)) ErrRange)
    else if 2 ^ 63 - 1 <? - n
         then (2 ^ 63 - 1, NumError "Atoi" (String "-" (String c r)) ErrRange)
         else (- n, Nil)
  end.
Proof. reflexivity. Qed.

(** [strconv.Atoi] reads back what [%d] writes, for every 64-bit [int]. *)
Lemma Atoi_Itoa n :
  - 2 ^ 63 <= n <= 2 ^ 63 - 1 -> Atoi (Itoa n) = (n, Nil).
Proof.
  change (2 ^ 63) with 9223372036854775808. intros Hn. unfold Itoa.
  destruct (Z.ltb_spec n 0).
  - destruct (digits_head 19 (- n)) as (c & r & E & Hc). rewrite E.
    change ("-" +:+ String c r) with (String "-" (String c r)).
    rewrite Atoi_negative, <- E, digitsValue_digits.
    2:{ change (10 ^ Z.of_nat 20) with 100000000000000000000. lia. }
    change (2 ^ 63) with 9223372036854775808.
    repeat match goal with
           | |- context [?a <? ?b] => destruct (Z.ltb_spec a b); [lia|]
           end.
    f_equal. lia.
  - destruct (digits_head 19 n) as (c & r & E & Hc). rewrite E.
    rewrite (Atoi_unsigned c r Hc), <- E, digitsValue_digits.
    2:{ change (10 ^ Z.of_nat 20) with 100000000000000000000. lia. }
    change (2 ^ 63) with 9223372036854775808.
    repeat match goal with
           | |- context [?a <? ?b] => destruct (Z.ltb_spec a b); [lia|]
           end.
    reflexivity.
Qed.

Lemma Itoa_no_newline n : mentions (ascii_of_nat 10) (Itoa n) = false.
Proof.
  unfold Itoa. destruct (n <? 0).
  - change ("-" +:+ digits 20 (- n) EmptyString)
      with (String "-" (digits 20 (- n) EmptyString)).
    cbn [mentions]. rewrite digits_mentions; reflexivity.
  - apply digits_mentions; reflexivity.
Qed.

Lemma TrimRight_newline d :
  mentions (ascii_of_nat 10) d = false -> TrimRight (d +:+ LF) LF = d.
Proof.
  induction d as [|c d IH]; intros H; [reflexivity|].
  cbn [mentions] in H. apply orb_false_iff in H as [Hc H].
  rewrite append_cons. cbn [TrimRight]. rewrite (IH H).
  destruct d; [|reflexivity].
  unfold LF. cbn [mentions]. now rewrite Ascii.eqb_sym, Hc.
Qed.

Lemma TrimLeft_start c d cutset :
  mentions c cutset = false -> TrimLeft (String c d) cutset = String c d.
Proof. intros H. cbn [TrimLeft]. now rewrite H. Qed.

Lemma Trim_line d :
  mentions (ascii_of_nat 10) d = false -> Trim (d +:+ LF) LF = d.
Proof.
  intros H. unfold Trim. destruct d as [|c d]; [reflexivity|].
  rewrite append_cons, TrimLeft_start.
  - rewrite <- append_cons. now apply TrimRight_newline.
  - cbn [mentions] in H. apply orb_false_iff in H as [Hc _].
    unfold LF. cbn [mentions]. rewrite orb_false_r.
    rewrite Ascii.eqb_sym. exact Hc.
Qed.

(** [AddNetwork] returns the identifier the daemon replies: when the
    reply is the decimal digits of a 64-bit number and a newline, the
    result is that number and a [nil] error. *)
Theorem AddNetwork_reads_the_identifier
    (Write : string -> error) (await : string -> awaited) (n : Z) :
  - 2 ^ 63 <= n <= 2 ^ 63 - 1 ->
  cmd Write await "ADD_NETWORK" = (Itoa n +:+ LF, Nil) ->
  AddNetwork Write await = (n, Nil).
Proof.
  intros Hn Hcmd. unfold AddNetwork. rewrite Hcmd.
  rewrite Trim_line by apply Itoa_no_newline. now apply Atoi_Itoa.
Qed.

Lemma AddNetwork_reads_the_identifier_witness :
  AddNetwork (fun _ => Nil) (fun _ => Received (Message 2 ("17" +:+ LF) Nil)) = (17, Nil).
Proof.
  apply (AddNetwork_reads_the_identifier _ _ 17).
  - vm_compute. split; discriminate.
  - vm_compute. reflexivity.
Defined.

Lemma hex_of_byte b :
  fromHexChar (hexDigit (byteval b / 16)) = Some (byteval b / 16) /\
  fromHexChar (hexDigit (byteval b mod 16)) = Some (byteval b mod 16) /\
  byteof (byteval b / 16 * 16 + byteval b mod 16) = b.
Proof. destruct b as [[] [] [] [] [] [] [] []]; repeat split; reflexivity. Qed.

Lemma append_line_nonempty s : s +:+ LF <> EmptyString.
Proof. destruct s; discriminate. Qed.

Lemma append_line_inj s : forall s', s +:+ LF = s' +:+ LF -> s = s'.
Proof.
  induction s as [|a s IH]; intros [|a' s'] H.
  - reflexivity.
  - rewrite append_cons in H. injection H as _ H. destruct s'; discriminate H.
  - rewrite append_cons in H. injection H as _ H. destruct s; discriminate H.
  - rewrite !append_cons in H. injection H as -> H. f_equal. now apply IH.
Qed.

(** A reply line: the encoding of a name and the newline after it. *)
Lemma written_line bytes : written (bytes +:+ LF) (encodeByteLiteral bytes +:+ LF).
Proof.
  induction bytes as [|b bytes IH].
  - apply written_plain; [discriminate | apply written_end].
  - rewrite append_cons. cbn [encodeByteLiteral]. unfold encodeByte.
    rewrite append_assoc.
    destruct (Ascii.eqb_spec b (ascii_of_nat 92)) as [-> | Hb].
    + apply (written_pair (bytes +:+ LF) (encodeByteLiteral bytes +:+ LF));
        [apply append_line_nonempty | exact IH].
    + destruct ((32 <=? byteval b) && (byteval b <=? 126)).
      * apply (written_plain b); [exact Hb | exact IH].
      * destruct (hex_of_byte b) as (H1 & H2 & H3).
        rewrite <- H3 at 1.
        apply (written_hex _ _ _ _ (bytes +:+ LF) (encodeByteLiteral bytes +:+ LF) H1 H2 IH).
Qed.

Lemma decode_line bytes :
  decodeByteLiteralString (encodeByteLiteral bytes +:+ LF) = Returns (bytes +:+ LF).
Proof.
  unfold decodeByteLiteralString.
  apply (decodeLoop_written _ _ (written_line bytes) _ _ EmptyString 0 EmptyString);
    [reflexivity | reflexivity | unfold len; lia].
Qed.

(** [GetNetwork] of the variable ssid decodes the reply line: when the
    reply is the encoding of a name followed by a newline, the result is
    the name, still followed by the newline, and a [nil] error, also for
    a name that ends in a backslash; the name FAIL apart, whose reply is
    the failure marker. *)
Theorem GetNetwork_decodes_the_name
    (Write : string -> error) (await : string -> awaited)
    (networkID : Z) (bytes : string) :
  cmd Write await ("GET_NETWORK " +:+ Itoa networkID +:+ " " +:+ "ssid")
    = (encodeByteLiteral bytes +:+ LF, Nil) ->
  bytes <> "FAIL" ->
  GetNetwork Write await networkID "ssid" = Returns (bytes +:+ LF, Nil).
Proof.
  intros Hcmd Hne. unfold GetNetwork. rewrite Hcmd.
  destruct (String.eqb_spec (encodeByteLiteral bytes +:+ LF) ("FAIL" +:+ LF)) as [E | _].
  - exfalso. apply Hne. apply append_line_inj.
    pose proof (decode_line bytes) as Hd. rewrite E in Hd.
    assert (Hf : decodeByteLiteralString ("FAIL" +:+ LF) = Returns ("FAIL" +:+ LF))
      by (vm_compute; reflexivity).
    rewrite Hf in Hd. now injection Hd as <-.
  - change (String.eqb "ssid" "ssid") with true. cbn iota.
    now rewrite decode_line.
Qed.

Lemma GetNetwork_decodes_the_name_witness :
  GetNetwork (fun _ => Nil)
             (fun _ => Received (Message 2 ("net" +:+ BACKSLASH +:+ BACKSLASH +:+ LF) Nil))
             0 "ssid"
  = Returns ("net" +:+ BACKSLASH +:+ LF, Nil).
Proof.
  apply (GetNetwork_decodes_the_name _ _ 0 ("net" +:+ BACKSLASH)).
  - vm_compute. reflexivity.
  - discriminate.
Defined.

(** ** The two revisions of [parseScanResults] *)

Lemma Revision0_row st ln fields :
  Forall (fun f => mentions (ascii_of_nat 92) f = false) fields ->
  Revision0.row st ln fields = Scan.row st ln fields.
Proof.
  intros Hplain. unfold Revision0.row, Scan.row.
  destruct (if negb (Scan.bssidCol st =? -1) then _ else _) as [[hw e1]| |];
    cbn [bind fst snd]; try reflexivity.
  destruct e1; try reflexivity.
  destruct (if negb (Scan.freqCol st =? -1) then _ else _) as [[v2 e2]| |];
    cbn [bind fst snd]; try reflexivity.
  destruct e2; try reflexivity.
  destruct (if negb (Scan.rssiCol st =? -1) then _ else _) as [[v3 e3]| |];
    cbn [bind fst snd]; try reflexivity.
  destruct e3; try reflexivity.
  destruct (if negb (Scan.flagsCol st =? -1) then _ else _) as [fl| |];
    cbn [bind]; try reflexivity.
  destruct (negb (Scan.ssidCol st =? -1)); [|reflexivity].
  destruct (index fields (Scan.ssidCol st)) as [f| |] eqn:Ef; cbn [bind]; try reflexivity.
  rewrite decodeByteLiteralString_itself; [reflexivity|].
  exact (index_Forall _ _ _ _ Hplain Ef).
Qed.

Lemma Revision0_rows st lines : forall res errs,
  Forall (fun ln => mentions (ascii_of_nat 92) ln = false) lines ->
  Revision0.rows st lines res errs = Scan.rows st lines res errs.
Proof.
  induction lines as [|ln lines IH]; intros res errs H; [reflexivity|].
  apply Forall_cons in H as [Hln H]. cbn [Revision0.rows Scan.rows].
  destruct (Z.of_nat (length (Split ln TAB)) <? Scan.maxCol st); [now apply IH|].
  rewrite (Revision0_row st ln _ (Split_TAB_plain ln Hln)).
  destruct (Scan.row st ln (Split ln TAB)) as [[r | e]| |]; cbn [bind];
    try reflexivity; now apply IH.
Qed.

Lemma dropCR_mentions c s : mentions c s = false -> mentions c (dropCR s) = false.
Proof.
  induction s as [|a s IH]; intros H; [reflexivity|].
  cbn [mentions] in H. apply orb_false_iff in H as [Ha H].
  destruct s as [|b s].
  - cbn [dropCR]. destruct (Ascii.eqb a (ascii_of_nat 13)); [reflexivity|].
    cbn [mentions]. now rewrite Ha.
  - change (dropCR (String a (String b s))) with (String a (dropCR (String b s))).
    cbn [mentions]. now rewrite Ha, (IH H).
Qed.

Lemma scanFrom_mentions c s : forall n cur,
  mentions c cur = false -> mentions c s = false ->
  Forall (fun ln => mentions c ln = false) (scanFrom n cur s).
Proof.
  induction s as [|a s IH]; intros n cur Hcur Hs; cbn [scanFrom].
  - destruct (n =? 0); constructor; [now apply dropCR_mentions | constructor].
  - cbn [mentions] in Hs. apply orb_false_iff in Hs as [Ha Hs].
    destruct (Ascii.eqb a (ascii_of_nat 10)).
    + constructor; [now apply dropCR_mentions | now apply IH].
    + destruct (MaxScanTokenSize - 1 <=? n); [constructor|].
      apply IH; [|exact Hs]. rewrite mentions_append, Hcur. cbn [mentions].
      now rewrite Ha.
Qed.

(** On a response without a backslash the two revisions of
    [parseScanResults] give the same records and the same errors (or the
    same panic): decoding the names changes nothing there. *)
Theorem revisions_agree_without_backslash (resp : string) :
  mentions (ascii_of_nat 92) resp = false ->
  Revision0.parseScanResults resp = parseScanResults resp.
Proof.
  intros H. unfold Revision0.parseScanResults, parseScanResults.
  pose proof (scanFrom_mentions (ascii_of_nat 92) resp 0 EmptyString eq_refl H) as Hl.
  fold (ScanLines resp) in Hl.
  destruct (ScanLines resp) as [|hdr lines]; [reflexivity|].
  apply Forall_cons in Hl as [_ Hl]. now apply Revision0_rows.
Qed.

Lemma revisions_agree_without_backslash_witness :
  Revision0.parseScanResults
    ("bssid / ssid" +:+ LF +:+ "00:11:22:33:44:55" +:+ TAB +:+ "home" +:+ LF)
  = parseScanResults
    ("bssid / ssid" +:+ LF +:+ "00:11:22:33:44:55" +:+ TAB +:+ "home" +:+ LF).
Proof.
  apply revisions_agree_without_backslash. vm_compute. reflexivity.
Defined.
